(** * clean_sim_results.py: a shallow embedding and its properties

    The script [scripts/clean_sim_results.py] prompts once, walks the tree
    below [main_folder], cleans every sub-directory whose name matches
    [testcase*], and finally empties the flat directory [work_dir].

    The embedding keeps the shape of the script: the file system, the
    standard input and the console are an explicit [world]; every library
    call the script makes ([os.listdir], [os.path.isfile], [os.remove],
    [os.path.exists], [os.walk], [fnmatch.filter], [input], [print]) is a
    computation in a state-and-exception monad [M]; the two functions of
    the script and its top-level code are written with the same control
    flow as the source.

    What the model takes from the platform: names are compared as on
    POSIX (case sensitive); there are no symbolic links; a directory
    listing enumerates the entries in a fixed order that removals do not
    disturb; whether [os.remove] succeeds on a regular file is a property
    of that file that a run does not change.

    The library calls are idealised in three ways.  [os.listdir] succeeds
    on every directory (an unreadable directory is not modelled).
    [os.remove] on a regular file either unlinks it or refuses, and every
    refusal is the exception [PermissionError] of that file (the other
    [OSError]s a real removal can raise are not told apart).  [print] does
    not fail. *)

From Stdlib Require Import List String Ascii Bool Arith Lia.
Import ListNotations.
Open Scope string_scope.
Open Scope list_scope.

(** ** Paths and file-system states *)

Module Fs.

(** A path is kept as the list of its components: ['../data/work'] is
    [[".."; "data"; "work"]]. *)
Definition path := list string.

(** [os.path.join(directory, filename)] for a [filename] taken from a
    directory listing. *)
Definition os_path_join (directory : path) (filename : string) : path :=
  directory ++ [filename].

(** The text of a path as the f-strings of the script print it. *)
Definition path_str (p : path) : string := String.concat "/" p.

(** What sits at a path.  A regular file carries whether [os.remove]
    succeeds on it (it does not on, say, a file in a read-only directory). *)
Inductive kind :=
| KFile (removable : bool)
| KDir
| KOther.

(** A file-system state: the entries in the order directory listings
    enumerate them.  The first entry for a path is the one that counts. *)
Definition filesystem := list (path * kind).

Fixpoint path_eqb (p q : path) : bool :=
  match p, q with
  | [], [] => true
  | x :: p', y :: q' => String.eqb x y && path_eqb p' q'
  | _, _ => false
  end.

Fixpoint lookup (fs : filesystem) (p : path) : option kind :=
  match fs with
  | [] => None
  | (q, k) :: fs' => if path_eqb q p then Some k else lookup fs' p
  end.

(** Unlinking [p]: no entry for [p] is left. *)
Definition unlink (p : path) (fs : filesystem) : filesystem :=
  filter (fun e => negb (path_eqb (fst e) p)) fs.

(** [child_name d q] is [Some n] exactly when [q] is [d ++ [n]]. *)
Fixpoint child_name (d q : path) : option string :=
  match d, q with
  | [], [n] => Some n
  | x :: d', y :: q' => if String.eqb x y then child_name d' q' else None
  | _, _ => None
  end.

(** Keeps the first occurrence of every name. *)
Fixpoint dedup (l : list string) : list string :=
  match l with
  | [] => []
  | x :: l' => x :: filter (fun y => negb (String.eqb x y)) (dedup l')
  end.

(** The names directly inside [d], each once, in enumeration order. *)
Definition names_in (fs : filesystem) (d : path) : list string :=
  dedup (flat_map (fun e => match child_name d (fst e) with
                            | Some n => [n]
                            | None => []
                            end) fs).

Definition present (fs : filesystem) (p : path) : bool :=
  match lookup fs p with Some _ => true | None => false end.

Definition is_file (fs : filesystem) (p : path) : bool :=
  match lookup fs p with Some (KFile _) => true | _ => false end.

Definition is_dir (fs : filesystem) (p : path) : bool :=
  match lookup fs p with Some KDir => true | _ => false end.

(** Whether unlinking [p] would succeed. *)
Definition removable (fs : filesystem) (p : path) : bool :=
  match lookup fs p with
  | Some (KFile true) | Some KOther => true
  | _ => false
  end.

(** The sub-directories of [d], as [os.walk] collects them in [dirnames]. *)
Definition subdirs (fs : filesystem) (d : path) : list string :=
  filter (fun n => is_dir fs (os_path_join d n)) (names_in fs d).

(** One more than the length of the longest path of [fs]: no directory
    nesting below any path is deeper than this. *)
Definition depth_bound (fs : filesystem) : nat :=
  S (fold_right (fun e m => Nat.max (List.length (fst e)) m) 0 fs).

End Fs.
Import Fs.

(** ** Worlds, outcomes and the monad *)

Inductive exn :=
| FileNotFoundError (p : path)
| NotADirectoryError (p : path)
| IsADirectoryError (p : path)
| PermissionError (p : path)
| EOFError.

(** [str(e)] as it appears after [Reason:]. *)
Definition exn_str (e : exn) : string :=
  match e with
  | FileNotFoundError p =>
      "[Errno 2] No such file or directory: '" ++ path_str p ++ "'"
  | NotADirectoryError p =>
      "[Errno 20] Not a directory: '" ++ path_str p ++ "'"
  | IsADirectoryError p =>
      "[Errno 21] Is a directory: '" ++ path_str p ++ "'"
  | PermissionError p =>
      "[Errno 13] Permission denied: '" ++ path_str p ++ "'"
  | EOFError => "EOF when reading a line"
  end.

(** What an observer of a run sees, in order. *)
Inductive event :=
| ReadLine (prompt : string)
| Printed (line : string)
| Removed (p : path).

Record world := World {
  fs : filesystem;
  stdin : list string;
  trace : list event
}.

Inductive outcome (A : Type) :=
| Val (a : A)
| Raised (e : exn)
| OutOfFuel.
Arguments Val {A} a.
Arguments Raised {A} e.
Arguments OutOfFuel {A}.

Definition M (A : Type) : Type := world -> world * outcome A.

Definition ret {A} (a : A) : M A := fun w => (w, Val a).

Definition bind {A B} (m : M A) (k : A -> M B) : M B :=
  fun w =>
    match m w with
    | (w', Val a) => k a w'
    | (w', Raised e) => (w', Raised e)
    | (w', OutOfFuel) => (w', OutOfFuel)
    end.

Definition raise {A} (e : exn) : M A := fun w => (w, Raised e).

(** [try: m  except Exception as e: h e]. *)
Definition try_except {A} (m : M A) (h : exn -> M A) : M A :=
  fun w =>
    match m w with
    | (w', Raised e) => h e w'
    | r => r
    end.

Declare Scope monad_scope.
Delimit Scope monad_scope with monad.
Notation "x <- m ;; k" := (bind m (fun x => k))
  (at level 61, m at next level, right associativity) : monad_scope.
Notation "m ;; k" := (bind m (fun _ => k))
  (at level 61, right associativity) : monad_scope.
Open Scope monad_scope.

(** [for x in xs: body x]. *)
Fixpoint for_each {A} (xs : list A) (body : A -> M unit) : M unit :=
  match xs with
  | [] => ret tt
  | x :: xs' => body x ;; for_each xs' body
  end.

Definition emit (e : event) : M unit :=
  fun w => (World (fs w) (stdin w) (trace w ++ [e]), Val tt).

(** ** The library calls of the script *)

Definition print (line : string) : M unit := emit (Printed line).

(** [input(prompt)]: one line of standard input, without its newline;
    [EOFError] when the input is exhausted. *)
Definition input (prompt : string) : M string :=
  fun w =>
    let tr := trace w ++ [ReadLine prompt] in
    match stdin w with
    | [] => (World (fs w) [] tr, Raised EOFError)
    | line :: rest => (World (fs w) rest tr, Val line)
    end.

Definition os_listdir (directory : path) : M (list string) :=
  fun w =>
    match lookup (fs w) directory with
    | Some KDir => (w, Val (names_in (fs w) directory))
    | Some _ => (w, Raised (NotADirectoryError directory))
    | None => (w, Raised (FileNotFoundError directory))
    end.

Definition os_path_isfile (p : path) : M bool :=
  fun w => (w, Val (is_file (fs w) p)).

Definition os_path_exists (p : path) : M bool :=
  fun w => (w, Val (present (fs w) p)).

Definition os_remove (p : path) : M unit :=
  fun w =>
    match lookup (fs w) p with
    | None => (w, Raised (FileNotFoundError p))
    | Some KDir => (w, Raised (IsADirectoryError p))
    | Some (KFile false) => (w, Raised (PermissionError p))
    | Some _ =>
        (World (unlink p (fs w)) (stdin w) (trace w ++ [Removed p]), Val tt)
    end.

Definition startswith (pre s : string) : bool := String.prefix pre s.

(** [s.endswith(suf)]: some tail of [s] is [suf]. *)
Fixpoint endswith (suf s : string) : bool :=
  String.eqb s suf ||
  match s with
  | EmptyString => false
  | String _ s' => endswith suf s'
  end.

(** [fnmatch.fnmatchcase(name, pat)] for patterns made of literal
    characters, [*] and [?] (on POSIX [fnmatch.filter] is case sensitive). *)
Fixpoint fnmatch (pat : string) : string -> bool :=
  match pat with
  | EmptyString =>
      fun s => match s with EmptyString => true | _ => false end
  | String c pat' =>
      if Ascii.eqb c "*" then
        fix star (s : string) : bool :=
          fnmatch pat' s ||
          match s with
          | EmptyString => false
          | String _ s' => star s'
          end
      else if Ascii.eqb c "?" then
        fun s => match s with
                 | EmptyString => false
                 | String _ s' => fnmatch pat' s'
                 end
      else
        fun s => match s with
                 | EmptyString => false
                 | String d s' => Ascii.eqb c d && fnmatch pat' s'
                 end
  end.

Definition fnmatch_filter (names : list string) (pat : string) : list string :=
  filter (fnmatch pat) names.

(** [os.walk(top)], top-down, with the loop body that consumes each
    yielded triple [(dirpath, dirnames, files)].  The generator lists a
    directory only when the loop reaches it, so the body's deletions are
    seen by the listings that follow; a [top] that cannot be listed yields
    nothing and raises nothing. *)
Fixpoint os_walk_fuel (fuel : nat) (top : path)
    (body : path * list string * list string -> M unit) : M unit :=
  match fuel with
  | O => fun w => (w, OutOfFuel)
  | S fuel' =>
      fun w =>
        if is_dir (fs w) top then
          let dirs := subdirs (fs w) top in
          let nondirs :=
            filter (fun n => negb (is_dir (fs w) (os_path_join top n)))
                   (names_in (fs w) top) in
          (body (top, dirs, nondirs) ;;
           for_each dirs (fun dirname =>
             os_walk_fuel fuel' (os_path_join top dirname) body)) w
        else (w, Val tt)
  end.

(** The walk is started with as much fuel as the deepest path needs. *)
Definition os_walk (top : path)
    (body : path * list string * list string -> M unit) : M unit :=
  fun w => os_walk_fuel (depth_bound (fs w)) top body w.

(** ** The script *)

Definition main_folder : path := [".."; "data"].
Definition work_dir : path := [".."; "data"; "work"].

Definition primary_rule (filename : string) : bool :=
  startswith "log_" filename ||
  endswith ".log" filename ||
  startswith "output_c" filename ||
  startswith "output_test_" filename.

Definition secondary_rule (filename : string) : bool :=
  startswith "input" filename ||
  startswith "output_ref" filename.

(** The body of the [for] loops of lines 11-20 and 23-30, for the name
    test [rule] of the [if]. *)
Definition delete_entry (rule : string -> bool) (directory : path)
    (filename : string) : M unit :=
  let file_path := os_path_join directory filename in
  isf <- os_path_isfile file_path ;;
  if isf && rule filename then
    print ("Deleting file: " ++ path_str file_path) ;;
    os_remove file_path
  else ret tt.

(** The common shape of the two deleting functions. *)
Definition delete_where (rule : string -> bool) (directory : path) : M unit :=
  filenames <- os_listdir directory ;;
  for_each filenames (delete_entry rule directory).

Definition delete_files_in_directory (directory : path) : M unit :=
  delete_where primary_rule directory.

Definition delete_matlab_files_in_directory (directory : path) : M unit :=
  delete_where secondary_rule directory.

(** Lines 35-41: the walk and what is done for each matched directory. *)
Definition process_matched (delete_matlab_files : string) (dirpath : path)
    (dirname : string) : M unit :=
  let full_dir_path := os_path_join dirpath dirname in
  print ("Processing directory: " ++ path_str full_dir_path) ;;
  delete_files_in_directory full_dir_path ;;
  if String.eqb delete_matlab_files "y" then
    delete_matlab_files_in_directory full_dir_path
  else ret tt.

Definition walk_body (delete_matlab_files : string)
    (yielded : path * list string * list string) : M unit :=
  let '(dirpath, dirnames, _) := yielded in
  for_each (fnmatch_filter dirnames "testcase*")
           (process_matched delete_matlab_files dirpath).

Definition tree_phase (top : path) (delete_matlab_files : string) : M unit :=
  os_walk top (walk_body delete_matlab_files).

(** Lines 46-55: one entry of the work directory. *)
Definition work_entry (dir : path) (filename : string) : M unit :=
  let file_path := os_path_join dir filename in
  isf <- os_path_isfile file_path ;;
  if isf then
    try_except
      (os_remove file_path ;;
       print ("Deleted file: '" ++ path_str file_path ++ "'"))
      (fun e =>
         print ("Failed to delete file '" ++ path_str file_path ++
                "'. Reason: " ++ exn_str e))
  else ret tt.

(** Lines 44-57. *)
Definition work_phase (dir : path) : M unit :=
  ex <- os_path_exists dir ;;
  if ex then
    filenames <- os_listdir dir ;;
    for_each filenames (work_entry dir)
  else
    print ("The directory " ++ path_str dir ++ " does not exist.").

(** Lines 34-57, for any pair of configured directories. *)
Definition script (top work : path) : M unit :=
  delete_matlab_files <- input "Delete MATLAB files? (y/n): " ;;
  tree_phase top delete_matlab_files ;;
  work_phase work.

Definition main : M unit := script main_folder work_dir.

(** A run from a file system and the lines typed at the prompt. *)
Definition run (top work : path) (lines : list string) (f : filesystem)
    : world * outcome unit :=
  script top work (World f lines []).

Definition removed_paths (tr : list event) : list path :=
  flat_map (fun e => match e with Removed p => [p] | _ => [] end) tr.

(** ** Sample file systems *)

Definition sample_fs : filesystem :=
  [ ([".."; "data"], KDir);
    ([".."; "data"; "testcase1"], KDir);
    ([".."; "data"; "testcase1"; "log_run.txt"], KFile true);
    ([".."; "data"; "testcase1"; "keep.txt"], KFile true);
    ([".."; "data"; "testcase1"; "input_a.csv"], KFile true);
    ([".."; "data"; "testcase1"; "run.log"], KFile true);
    ([".."; "data"; "other"], KDir);
    ([".."; "data"; "other"; "log_x"], KFile true);
    ([".."; "data"; "other"; "testcase9"], KDir);
    ([".."; "data"; "other"; "testcase9"; "output_c.bin"], KFile true);
    ([".."; "data"; "work"], KDir);
    ([".."; "data"; "work"; "a.o"], KFile true);
    ([".."; "data"; "work"; "locked"], KFile false);
    ([".."; "data"; "work"; "b.o"], KFile true);
    ([".."; "data"; "work"; "sub"], KDir);
    ([".."; "data"; "work"; "sub"; "c.o"], KFile true) ].

(** * Vocabulary of the properties *)

Record pruned (f' f : filesystem) : Prop := {
  pruned_lookup : forall p, lookup f' p = None \/ lookup f' p = lookup f p;
  pruned_dirs : forall p, is_dir f p = true -> is_dir f' p = true;
  pruned_names : forall d,
    names_in f' d = filter (fun n => present f' (os_path_join d n)) (names_in f d)
}.

Definition unlink_all (ps : list path) (f : filesystem) : filesystem :=
  fold_left (fun g p => unlink p g) ps f.

(** [effect w w' tr]: between [w] and [w'] the events [tr] happened, the
    standard input was not read, and the file system lost exactly the
    removed paths, each of which could be unlinked. *)
Record effect (w w' : world) (tr : list event) : Prop := {
  eff_trace : trace w' = trace w ++ tr;
  eff_stdin : stdin w' = stdin w;
  eff_fs : fs w' = unlink_all (removed_paths tr) (fs w);
  eff_removable : forall p, In p (removed_paths tr) -> removable (fs w) p = true
}.

Definition path_dec : forall p q : path, {p = q} + {p <> q} :=
  list_eq_dec string_dec.

(** [does Phi m]: whatever [m] returns, its effect is a trace in [Phi]. *)
Definition does {A} (Phi : list event -> Prop) (m : M A) : Prop :=
  forall w w' r, m w = (w', r) -> exists tr, effect w w' tr /\ Phi tr.

(** Trace properties that hold of no event and of concatenations. *)
Record modular (Phi : list event -> Prop) : Prop := {
  modular_nil : Phi [];
  modular_app : forall tr1 tr2, Phi tr1 -> Phi tr2 -> Phi (tr1 ++ tr2)
}.

Definition any_trace (tr : list event) : Prop := True.

(** The pairs [(dirpath, dirname)] the loop of lines 35-36 goes through,
    in order, when the file system is [f] throughout. *)
Fixpoint walk_tasks (fuel : nat) (f : filesystem) (top : path)
    : list (path * string) :=
  match fuel with
  | O => []
  | S fuel' =>
      if is_dir f top then
        map (pair top) (fnmatch_filter (subdirs f top) "testcase*") ++
        flat_map (fun dn => walk_tasks fuel' f (os_path_join top dn))
                 (subdirs f top)
      else []
  end.

Definition proc (ans : string) (t : path * string) : M unit :=
  process_matched ans (fst t) (snd t).

Definition deleting_line (p : path) : string :=
  "Deleting file: " ++ path_str p.

Definition processing_line (d : path) : string :=
  "Processing directory: " ++ path_str d.

Definition deleted_line (p : path) : string :=
  "Deleted file: '" ++ path_str p ++ "'".

Definition failed_line (p : path) (e : exn) : string :=
  "Failed to delete file '" ++ path_str p ++ "'. Reason: " ++ exn_str e.

(** The tree phase is the loop over the matched directories of the
    initial file system. *)
Definition matched_tasks (f : filesystem) (top : path) : list (path * string) :=
  walk_tasks (depth_bound f) f top.

(** Every directory on the way from [top] down [q] is a directory. *)
Fixpoint chain_dirs (f : filesystem) (top q : path) : bool :=
  is_dir f top &&
  match q with
  | [] => true
  | x :: q' => chain_dirs f (os_path_join top x) q'
  end.

(** [dp/dn] is a directory named [testcase*] that the walk from [top]
    reaches in [dp]. *)
Definition matched (f : filesystem) (top dp : path) (dn : string) : Prop :=
  exists q, dp = top ++ q /\ chain_dirs f top q = true /\
            is_dir f (os_path_join dp dn) = true /\
            fnmatch "testcase*" dn = true.

(** Traces made of segments, each in [seg]. *)
Inductive star (seg : list event -> Prop) : list event -> Prop :=
| star_nil : star seg []
| star_cons s tr : seg s -> star seg tr -> star seg (s ++ tr).

(** The rule in force in a matched directory after the answer [ans]. *)
Definition deletion_rule (ans : string) (n : string) : bool :=
  primary_rule n || (String.eqb ans "y" && secondary_rule n).

(** [p] is [top/q/dn/n] with [dn] matching [testcase*] and [n] a name the
    rule in force deletes. *)
Definition target (ans : string) (top p : path) : Prop :=
  exists q dn n, p = os_path_join (os_path_join (top ++ q) dn) n /\
                 fnmatch "testcase*" dn = true /\
                 deletion_rule ans n = true.

Inductive tree_seg (ans : string) (top : path) : list event -> Prop :=
| seg_processing q dn :
    fnmatch "testcase*" dn = true ->
    tree_seg ans top [Printed (processing_line (os_path_join (top ++ q) dn))]
| seg_refused p :
    target ans top p ->
    tree_seg ans top [Printed (deleting_line p)]
| seg_deleted p :
    target ans top p ->
    tree_seg ans top [Printed (deleting_line p); Removed p].

Inductive work_seg (dir : path) : list event -> Prop :=
| seg_removed n :
    work_seg dir [Removed (os_path_join dir n);
                  Printed (deleted_line (os_path_join dir n))]
| seg_failed n e :
    work_seg dir [Printed (failed_line (os_path_join dir n) e)]
| seg_missing :
    work_seg dir
      [Printed ("The directory " ++ path_str dir ++ " does not exist.")].

Definition after (w w' : world) : Prop := exists tr, effect w w' tr.

Definition prompt : string := "Delete MATLAB files? (y/n): ".

Definition rootless_fs : filesystem :=
  [ ([".."; "elsewhere"], KDir);
    ([".."; "elsewhere"; "testcase1"], KDir);
    ([".."; "elsewhere"; "testcase1"; "log_a"], KFile true) ].



Definition testcase_root_fs : filesystem :=
  [ (["testcase_root"], KDir);
    (["testcase_root"; "log_a"], KFile true);
    (["testcase_root"; "testcase1"], KDir);
    (["testcase_root"; "testcase1"; "log_b"], KFile true) ].

(** A regular file whose removal fails, in a matched directory. *)
Definition locked_log_fs : filesystem :=
  [ ([".."; "data"], KDir);
    ([".."; "data"; "testcase1"], KDir);
    ([".."; "data"; "testcase1"; "log_a"], KFile false);
    ([".."; "data"; "testcase1"; "log_b"], KFile true) ].

(** [p] is a regular file directly in [dir] that [os.remove] accepts. *)
Definition work_victim (dir : path) (names : list string) (f : filesystem)
    (p : path) : Prop :=
  exists n, In n names /\ p = os_path_join dir n /\
            lookup f p = Some (KFile true).

(** [quiet m w r]: from [w], [m] ends in [r] having removed nothing. *)
Definition quiet (m : M unit) (w : world) (r : outcome unit) : Prop :=
  exists tr, removed_paths tr = [] /\
             m w = (World (fs w) (stdin w) (trace w ++ tr), r).

(** [settled m f r]: [m] has ended in [r] leaving the file system [f], and
    running it again is quiet: after a normal return on [f] and on anything
    pruned from it, after an exception on [f] itself, with the same
    exception. *)
Definition settled (m : M unit) (f : filesystem) (r : outcome unit) : Prop :=
  match r with
  | Val _ => forall w, pruned (fs w) f -> quiet m w (Val tt)
  | Raised e => forall w, fs w = f -> quiet m w (Raised e)
  | OutOfFuel => False
  end.

Definition idem (m : M unit) : Prop :=
  forall w w' r, m w = (w', r) -> settled m (fs w') r.

(** The segments of a run's trace, with what the file system the run
    started from holds at the paths they name. *)
Inductive report (f : filesystem) : list event -> Prop :=
| rep_processing d :
    is_dir f d = true -> report f [Printed (processing_line d)]
| rep_refused q :
    lookup f q = Some (KFile false) -> report f [Printed (deleting_line q)]
| rep_deleted q :
    lookup f q = Some (KFile true) ->
    report f [Printed (deleting_line q); Removed q]
| rep_removed q :
    lookup f q = Some (KFile true) ->
    report f [Removed q; Printed (deleted_line q)]
| rep_failed q :
    lookup f q = Some (KFile false) ->
    report f [Printed (failed_line q (PermissionError q))]
| rep_missing work :
    report f [Printed ("The directory " ++ path_str work ++ " does not exist.")].

(** [logged f0 w w' tr]: the events [tr] took [w] to [w']; they are
    segments of [report f0]; each removed path was there before and is not
    there after, and none is removed twice. *)
Record logged (f0 : filesystem) (w w' : world) (tr : list event) : Prop := {
  log_trace : trace w' = trace w ++ tr;
  log_pruned : pruned (fs w') (fs w);
  log_report : star (report f0) tr;
  log_nodup : NoDup (removed_paths tr);
  log_gone : forall q, In q (removed_paths tr) ->
             present (fs w) q = true /\ present (fs w') q = false
}.

(** [logs m]: started on a file system pruned from [f0], whatever [m]
    does is [logged]. *)
Definition logs (f0 : filesystem) {A} (m : M A) : Prop :=
  forall w w' r, pruned (fs w) f0 -> m w = (w', r) ->
    exists tr, logged f0 w w' tr.

(** The first and sixth characters tell the kinds of line apart. *)
Definition line_kind (l : string) : option ascii * option ascii :=
  (String.get 0 l, String.get 5 l).

(** Paths of the file system with the same text are the same path (on a
    real file system no name contains the separator). *)
Definition distinct_texts (f : filesystem) : bool :=
  forallb (fun e1 =>
    forallb (fun e2 =>
      negb (String.eqb (path_str (fst e1)) (path_str (fst e2))) ||
      path_eqb (fst e1) (fst e2)) f) f.

(** [names_file p e]: the event is a console line about the path [p]. *)
Definition names_file (p : path) (e : event) : bool :=
  match e with
  | Printed l =>
      String.eqb l (deleting_line p) || String.eqb l (deleted_line p) ||
      String.eqb l (failed_line p (PermissionError p)) ||
      String.eqb l (processing_line p)
  | _ => false
  end.

(** How many console lines of a trace are about [p]. *)
Definition mentions (p : path) (tr : list event) : nat :=
  List.length (filter (names_file p) tr).

Definition work_only_fs : filesystem :=
  [ ([".."; "data"], KDir);
    ([".."; "data"; "work"], KDir);
    ([".."; "data"; "work"; "a.o"], KFile true) ].

(** The work directory path held by a regular file. *)
Definition work_is_a_file_fs : filesystem :=
  [ ([".."; "data"], KDir);
    ([".."; "data"; "testcase1"], KDir);
    ([".."; "data"; "testcase1"; "log_a"], KFile true);
    ([".."; "data"; "work"], KFile true) ].

(** The [Processing directory:] lines of a trace, in order. *)
Definition processing_lines (tr : list event) : list string :=
  flat_map (fun e => match e with
                     | Printed l =>
                         if startswith "Processing directory: " l
                         then [l] else []
                     | _ => []
                     end) tr.

(** The line printed for the matched directory of a task. *)
Definition task_line (t : path * string) : string :=
  processing_line (os_path_join (fst t) (snd t)).

(** * Properties *)

(** ** Paths, lookups and listings *)

Lemma path_eqb_eq (p q : path) : path_eqb p q = true <-> p = q.
Proof.
  revert q; induction p as [|x p IH]; intros [|y q]; simpl;
    try (split; [discriminate | congruence]); try tauto.
  rewrite andb_true_iff, String.eqb_eq, IH.
  split; [intros [-> ->]; reflexivity | intros H; inversion H; auto].
Qed.

Lemma path_eqb_refl (p : path) : path_eqb p p = true.
Proof. apply path_eqb_eq; reflexivity. Qed.

Lemma path_eqb_neq (p q : path) : path_eqb p q = false <-> p <> q.
Proof.
  rewrite <- path_eqb_eq.
  destruct (path_eqb p q); split; congruence.
Qed.

Lemma lookup_unlink_same (p : path) (f : filesystem) :
  lookup (unlink p f) p = None.
Proof.
  induction f as [|[q k] f IH]; simpl; auto.
  destruct (path_eqb q p) eqn:E; simpl; auto.
  rewrite E; auto.
Qed.

Lemma lookup_unlink_other (p q : path) (f : filesystem) :
  q <> p -> lookup (unlink p f) q = lookup f q.
Proof.
  intros Hne; induction f as [|[r k] f IH]; simpl; auto.
  destruct (path_eqb r p) eqn:E; simpl.
  - apply path_eqb_eq in E; subst r.
    destruct (path_eqb p q) eqn:E'; auto.
    apply path_eqb_eq in E'; congruence.
  - rewrite IH; reflexivity.
Qed.

Lemma child_name_spec (d q : path) (n : string) :
  child_name d q = Some n <-> q = d ++ [n].
Proof.
  revert q; induction d as [|x d IH]; intros q; simpl.
  - destruct q as [|y [|z q]]; split; intros H; try discriminate;
      try (inversion H; subst; reflexivity).
  - destruct q as [|y q]; [split; discriminate|].
    destruct (String.eqb x y) eqn:E.
    + apply String.eqb_eq in E; subst y. rewrite IH.
      split; [intros ->; reflexivity | intros H; inversion H; auto].
    + apply String.eqb_neq in E. split; [discriminate|].
      intros H; inversion H; congruence.
Qed.

Lemma child_name_join (d : path) (n : string) :
  child_name d (os_path_join d n) = Some n.
Proof. apply child_name_spec; reflexivity. Qed.

Lemma join_inj (d d' : path) (n n' : string) :
  os_path_join d n = os_path_join d' n' -> d = d' /\ n = n'.
Proof.
  unfold os_path_join; intros H.
  apply app_inj_tail in H; exact H.
Qed.

Lemma dedup_in (l : list string) (x : string) : In x (dedup l) <-> In x l.
Proof.
  induction l as [|y l IH]; simpl; [tauto|].
  rewrite filter_In, IH, negb_true_iff, String.eqb_neq.
  destruct (string_dec y x); [tauto|]. tauto.
Qed.

Lemma filter_filter_comm {A} (g h : A -> bool) (l : list A) :
  filter g (filter h l) = filter h (filter g l).
Proof.
  induction l as [|x l IH]; simpl; auto.
  destruct (h x) eqn:Hh, (g x) eqn:Hg; simpl;
    rewrite ?Hh, ?Hg, IH; reflexivity.
Qed.

Lemma dedup_filter (g : string -> bool) (l : list string) :
  dedup (filter g l) = filter g (dedup l).
Proof.
  induction l as [|x l IH]; simpl; auto.
  destruct (g x) eqn:Hg; simpl.
  - rewrite IH, filter_filter_comm; reflexivity.
  - rewrite IH. clear IH.
    (* the names equal to [x] are dropped by [g] anyway *)
    induction (dedup l) as [|y m IHm]; simpl; auto.
    destruct (String.eqb x y) eqn:E; simpl.
    + apply String.eqb_eq in E; subst y. rewrite Hg; exact IHm.
    + destruct (g y); [f_equal|]; exact IHm.
Qed.

Lemma dedup_nodup (l : list string) : NoDup (dedup l).
Proof.
  induction l as [|x l IH]; simpl; constructor.
  - rewrite filter_In, negb_true_iff, String.eqb_neq; intros [_ H]; congruence.
  - apply NoDup_filter; exact IH.
Qed.

Lemma names_in_present (f : filesystem) (d : path) (n : string) :
  In n (names_in f d) <-> present f (os_path_join d n) = true.
Proof.
  unfold names_in, present. rewrite dedup_in.
  induction f as [|[q k] f IH]; simpl; [split; [tauto | discriminate]|].
  rewrite in_app_iff, IH.
  destruct (path_eqb q (os_path_join d n)) eqn:E.
  - apply path_eqb_eq in E; subst q. rewrite child_name_join; simpl; tauto.
  - apply path_eqb_neq in E.
    destruct (child_name d q) as [m|] eqn:Hc; simpl; [|tauto].
    apply child_name_spec in Hc. unfold os_path_join in E.
    split; [intros [[->|[]]|H]; [congruence | exact H] | tauto].
Qed.

Lemma names_in_nodup (f : filesystem) (d : path) : NoDup (names_in f d).
Proof. apply dedup_nodup. Qed.

Lemma names_in_unlink (p : path) (f : filesystem) (d : path) :
  names_in (unlink p f) d =
  filter (fun n => negb (path_eqb (os_path_join d n) p)) (names_in f d).
Proof.
  unfold names_in. rewrite <- dedup_filter. f_equal.
  induction f as [|[q k] f IH]; simpl; auto.
  rewrite filter_app, <- IH.
  destruct (path_eqb q p) eqn:E; simpl.
  - destruct (child_name d q) as [m|] eqn:Hc; simpl; auto.
    apply child_name_spec in Hc. apply path_eqb_eq in E.
    subst q p. unfold os_path_join; rewrite path_eqb_refl; reflexivity.
  - destruct (child_name d q) as [m|] eqn:Hc; simpl; auto.
    apply child_name_spec in Hc. subst q.
    unfold os_path_join; rewrite E; reflexivity.
Qed.

(** ** File systems that only lost non-directories *)

Lemma filter_all {A} (g : A -> bool) (l : list A) :
  (forall x, In x l -> g x = true) -> filter g l = l.
Proof.
  induction l as [|x l IH]; simpl; intros H; auto.
  rewrite (H x (or_introl eq_refl)), IH; auto.
Qed.

Lemma filter_filter {A} (g h : A -> bool) (l : list A) :
  filter g (filter h l) = filter (fun x => g x && h x) l.
Proof.
  induction l as [|x l IH]; simpl; auto.
  destruct (h x) eqn:Hh; simpl; destruct (g x) eqn:Hg; simpl;
    rewrite ?Hg, ?IH; auto.
Qed.

Lemma pruned_refl (f : filesystem) : pruned f f.
Proof.
  split; auto.
  intros d. symmetry. apply filter_all.
  intros n; apply names_in_present.
Qed.

Lemma pruned_present (f' f : filesystem) (p : path) :
  pruned f' f -> present f' p = true -> present f p = true.
Proof.
  intros H. unfold present.
  destruct (pruned_lookup _ _ H p) as [E | E]; rewrite E;
    [discriminate | auto].
Qed.

Lemma pruned_trans (f'' f' f : filesystem) :
  pruned f'' f' -> pruned f' f -> pruned f'' f.
Proof.
  intros H1 H2. split.
  - intros p. destruct (pruned_lookup _ _ H1 p) as [E|E]; auto.
    destruct (pruned_lookup _ _ H2 p) as [E'|E']; rewrite E, E'; auto.
  - intros p Hp. apply (pruned_dirs _ _ H1), (pruned_dirs _ _ H2), Hp.
  - intros d. rewrite (pruned_names _ _ H1), (pruned_names _ _ H2), filter_filter.
    apply filter_ext. intros n.
    destruct (present f'' (os_path_join d n)) eqn:E; auto.
    rewrite (pruned_present _ _ _ H1 E); reflexivity.
Qed.

Lemma pruned_unlink (p : path) (f : filesystem) :
  is_dir f p = false -> pruned (unlink p f) f.
Proof.
  intros Hp. split.
  - intros q. destruct (path_eqb q p) eqn:E.
    + apply path_eqb_eq in E; subst q. left; apply lookup_unlink_same.
    + apply path_eqb_neq in E. right; apply lookup_unlink_other; exact E.
  - intros q Hq. unfold is_dir in *.
    rewrite lookup_unlink_other; auto. intros ->. congruence.
  - intros d. rewrite names_in_unlink.
    apply filter_ext_in. intros n Hn.
    apply names_in_present in Hn. unfold present in *.
    destruct (path_eqb (os_path_join d n) p) eqn:E; simpl.
    + apply path_eqb_eq in E; rewrite E, lookup_unlink_same; reflexivity.
    + apply path_eqb_neq in E. rewrite lookup_unlink_other; auto.
Qed.

Lemma pruned_is_dir (f' f : filesystem) (p : path) :
  pruned f' f -> is_dir f' p = is_dir f p.
Proof.
  intros H. destruct (is_dir f p) eqn:E.
  - apply (pruned_dirs _ _ H), E.
  - unfold is_dir in *.
    destruct (pruned_lookup _ _ H p) as [-> | ->]; auto.
Qed.

Lemma pruned_is_file (f' f : filesystem) (p : path) :
  pruned f' f -> is_file f' p = true -> lookup f' p = lookup f p.
Proof.
  intros H. unfold is_file.
  destruct (pruned_lookup _ _ H p) as [-> | ->]; auto; discriminate.
Qed.

Lemma pruned_subdirs (f' f : filesystem) (d : path) :
  pruned f' f -> subdirs f' d = subdirs f d.
Proof.
  intros H. unfold subdirs.
  rewrite (pruned_names _ _ H), filter_filter.
  apply filter_ext. intros n.
  rewrite (pruned_is_dir _ _ _ H).
  destruct (is_dir f (os_path_join d n)) eqn:E; auto.
  apply (pruned_dirs _ _ H) in E. unfold is_dir, present in *.
  destruct (lookup f' (os_path_join d n)); [reflexivity | discriminate].
Qed.

(** ** What a computation does to the world *)

Lemma removed_paths_app (tr1 tr2 : list event) :
  removed_paths (tr1 ++ tr2) = removed_paths tr1 ++ removed_paths tr2.
Proof. unfold removed_paths. apply flat_map_app. Qed.

Lemma removed_paths_in (tr : list event) (p : path) :
  In p (removed_paths tr) <-> In (Removed p) tr.
Proof.
  unfold removed_paths. rewrite in_flat_map. split.
  - intros [e [He Hp]]. destruct e; simpl in Hp; try tauto.
    destruct Hp as [->|[]]; exact He.
  - intros H. exists (Removed p); simpl; auto.
Qed.

Lemma unlink_all_pruned (ps : list path) (f : filesystem) :
  (forall p, In p ps -> is_dir f p = false) -> pruned (unlink_all ps f) f.
Proof.
  revert f; induction ps as [|p ps IH]; simpl; intros f H.
  - apply pruned_refl.
  - assert (Hp : pruned (unlink p f) f) by (apply pruned_unlink; auto).
    apply pruned_trans with (unlink p f); auto.
    apply IH. intros q Hq. rewrite (pruned_is_dir _ _ _ Hp); auto.
Qed.

Lemma removable_not_dir (f : filesystem) (p : path) :
  removable f p = true -> is_dir f p = false.
Proof.
  unfold removable, is_dir.
  destruct (lookup f p) as [[[|]| |]|]; auto; discriminate.
Qed.

Lemma effect_pruned (w w' : world) (tr : list event) :
  effect w w' tr -> pruned (fs w') (fs w).
Proof.
  intros [_ _ Hf Hd]. rewrite Hf. apply unlink_all_pruned.
  intros p Hp. apply removable_not_dir, Hd, Hp.
Qed.

Lemma effect_nil (w : world) : effect w w [].
Proof. split; simpl; auto using app_nil_r; tauto. Qed.

Lemma effect_app (w w1 w2 : world) (tr1 tr2 : list event) :
  effect w w1 tr1 -> effect w1 w2 tr2 -> effect w w2 (tr1 ++ tr2).
Proof.
  intros H1 H2. pose proof (effect_pruned _ _ _ H1) as Hp.
  destruct H1 as [T1 S1 F1 D1], H2 as [T2 S2 F2 D2]. split.
  - rewrite T2, T1, app_assoc; reflexivity.
  - congruence.
  - rewrite removed_paths_app. unfold unlink_all in *.
    rewrite fold_left_app, <- F1; exact F2.
  - intros p. rewrite removed_paths_app, in_app_iff. intros [H|H]; auto.
    apply D2 in H. unfold removable in *.
    destruct (pruned_lookup _ _ Hp p) as [E|E]; rewrite E in H;
      [discriminate | exact H].
Qed.

Lemma lookup_result_dec (a b : option kind) : {a = b} + {a <> b}.
Proof. repeat decide equality. Qed.

Lemma lookup_unlink_all_in (ps : list path) (f : filesystem) (q : path) :
  In q ps -> lookup (unlink_all ps f) q = None.
Proof.
  revert f; induction ps as [|p ps IH]; simpl; intros f H; [tauto|].
  destruct (in_dec path_dec q ps) as [Hin|Hnin]; auto.
  destruct H as [->|H]; [|tauto].
  clear IH. revert f. induction ps as [|p ps IH]; simpl; intros f.
  - apply lookup_unlink_same.
  - assert (q <> p) by (intros ->; apply Hnin; left; reflexivity).
    assert (E : unlink p (unlink q f) = unlink q (unlink p f))
      by (unfold unlink; apply filter_filter_comm).
    rewrite E. apply IH. intros Hin; apply Hnin; right; exact Hin.
Qed.

Lemma lookup_unlink_all_notin (ps : list path) (f : filesystem) (q : path) :
  ~ In q ps -> lookup (unlink_all ps f) q = lookup f q.
Proof.
  revert f; induction ps as [|p ps IH]; simpl; intros f H; auto.
  rewrite IH by tauto. apply lookup_unlink_other. intros ->; tauto.
Qed.

(** What the final file system holds at a path, from the events. *)
Lemma effect_lookup (w w' : world) (tr : list event) (q : path) :
  effect w w' tr ->
  (In (Removed q) tr /\ lookup (fs w') q = None) \/
  (~ In (Removed q) tr /\ lookup (fs w') q = lookup (fs w) q).
Proof.
  intros H. rewrite (eff_fs _ _ _ H).
  rewrite <- removed_paths_in.
  destruct (in_dec path_dec q (removed_paths tr)) as [Hin|Hnin].
  - left; split; [exact Hin | apply lookup_unlink_all_in; exact Hin].
  - right; split; [exact Hnin | apply lookup_unlink_all_notin; exact Hnin].
Qed.

Section Does.
Variable Phi : list event -> Prop.
Hypothesis HPhi : modular Phi.

Lemma does_ret {A} (a : A) : does Phi (ret a).
Proof.
  intros w w' r H; inversion H; subst.
  exists []; split; [apply effect_nil | apply (modular_nil _ HPhi)].
Qed.

Lemma does_pure {A} (g : world -> A) : does Phi (fun w => (w, Val (g w))).
Proof.
  intros w w' r H; inversion H; subst.
  exists []; split; [apply effect_nil | apply (modular_nil _ HPhi)].
Qed.

Lemma does_bind {A B} (m : M A) (k : A -> M B) :
  does Phi m -> (forall a, does Phi (k a)) -> does Phi (bind m k).
Proof.
  intros Hm Hk w w' r H. unfold bind in H.
  destruct (m w) as [w1 [a|e|]] eqn:E.
  - destruct (Hm _ _ _ E) as [tr1 [E1 P1]].
    destruct (Hk a _ _ _ H) as [tr2 [E2 P2]].
    exists (tr1 ++ tr2); split;
      [eapply effect_app; eauto | apply (modular_app _ HPhi); auto].
  - inversion H; subst. eauto.
  - inversion H; subst. eauto.
Qed.

Lemma does_try {A} (m : M A) (h : exn -> M A) :
  does Phi m -> (forall e, does Phi (h e)) -> does Phi (try_except m h).
Proof.
  intros Hm Hh w w' r H. unfold try_except in H.
  destruct (m w) as [w1 [a|e|]] eqn:E.
  - inversion H; subst. eauto.
  - destruct (Hm _ _ _ E) as [tr1 [E1 P1]].
    destruct (Hh e _ _ _ H) as [tr2 [E2 P2]].
    exists (tr1 ++ tr2); split;
      [eapply effect_app; eauto | apply (modular_app _ HPhi); auto].
  - inversion H; subst. eauto.
Qed.

Lemma does_for_each {A} (xs : list A) (body : A -> M unit) :
  (forall x, In x xs -> does Phi (body x)) -> does Phi (for_each xs body).
Proof.
  induction xs as [|x xs IH]; simpl; intros H.
  - apply does_ret.
  - apply does_bind; [apply H; auto | intros _; apply IH; auto].
Qed.

Lemma does_if {A} (b : bool) (m1 m2 : M A) :
  does Phi m1 -> does Phi m2 -> does Phi (if b then m1 else m2).
Proof. destruct b; auto. Qed.
End Does.

Lemma any_trace_modular : modular any_trace.
Proof. split; unfold any_trace; auto. Qed.

Lemma does_weaken {A} (Phi Psi : list event -> Prop) (m : M A) :
  (forall tr, Phi tr -> Psi tr) -> does Phi m -> does Psi m.
Proof.
  intros H Hm w w' r E. destruct (Hm _ _ _ E) as [tr [He Hp]]; eauto.
Qed.

Lemma does_print (Phi : list event -> Prop) (line : string) :
  Phi [Printed line] -> does Phi (print line).
Proof.
  intros HP w w' r H. unfold print, emit in H. inversion H; subst.
  exists [Printed line]. split; [|exact HP].
  split; simpl; auto; tauto.
Qed.

Lemma does_remove (Phi : list event -> Prop) (p : path) :
  Phi [] -> Phi [Removed p] -> does Phi (os_remove p).
Proof.
  intros H0 H1 w w' r H. unfold os_remove in H.
  destruct (lookup (fs w) p) as [[[|]| |]|] eqn:E; inversion H; subst;
    try (exists []; split; [apply effect_nil | exact H0]);
    (exists [Removed p]; split; [|exact H1]);
    (split; cbn [fs stdin trace removed_paths flat_map app]; auto;
     intros q [<-|[]]; unfold removable; rewrite E; auto).
Qed.

Lemma does_listdir (Phi : list event -> Prop) (d : path) :
  Phi [] -> does Phi (os_listdir d).
Proof.
  intros H0 w w' r H. unfold os_listdir in H.
  exists []. destruct (lookup (fs w) d) as [[| |]|]; inversion H; subst;
    (split; [apply effect_nil | exact H0]).
Qed.

(** ** Loops *)

Lemma for_each_app {A} (xs ys : list A) (body : A -> M unit) (w : world) :
  for_each (xs ++ ys) body w = (for_each xs body ;; for_each ys body) w.
Proof.
  revert w; induction xs as [|x xs IH]; intros w; simpl.
  - unfold bind, ret. destruct (for_each ys body w) as [w1 [[]|e|]]; auto.
  - unfold bind in *. destruct (body x w) as [w1 [[]|e|]]; auto.
Qed.

Lemma for_each_map {A B} (g : A -> B) (xs : list A) (body : B -> M unit)
    (w : world) :
  for_each (map g xs) body w = for_each xs (fun x => body (g x)) w.
Proof.
  revert w; induction xs as [|x xs IH]; intros w; simpl; auto.
  unfold bind. destruct (body (g x) w) as [w1 [[]|e|]]; auto.
Qed.

Lemma for_each_ext {A} (xs : list A) (body1 body2 : A -> M unit) (w : world) :
  (forall x w1, In x xs -> body1 x w1 = body2 x w1) ->
  for_each xs body1 w = for_each xs body2 w.
Proof.
  revert w; induction xs as [|x xs IH]; intros w H; simpl; auto.
  unfold bind. rewrite (H x w (or_introl eq_refl)).
  destruct (body2 x w) as [w1 [[]|e|]]; auto.
  apply IH. intros; apply H; right; auto.
Qed.

(** ** The walk as a list of matched directories *)

Lemma walk_tasks_pruned (fuel : nat) (f' f : filesystem) (top : path) :
  pruned f' f -> walk_tasks fuel f' top = walk_tasks fuel f top.
Proof.
  intros H. revert top; induction fuel as [|fuel IH]; intros top; simpl; auto.
  rewrite (pruned_is_dir _ _ _ H), (pruned_subdirs _ _ _ H).
  destruct (is_dir f top); auto. f_equal.
  apply flat_map_ext. intros dn; apply IH.
Qed.

Lemma walk_tasks_fuel (f : filesystem) (fuel1 fuel2 : nat) (top : path) :
  (forall p, is_dir f p = true -> List.length p < fuel1 + List.length top) ->
  (forall p, is_dir f p = true -> List.length p < fuel2 + List.length top) ->
  walk_tasks fuel1 f top = walk_tasks fuel2 f top.
Proof.
  revert fuel2 top; induction fuel1 as [|fuel1 IH]; intros fuel2 top H1 H2.
  - destruct fuel2; simpl; auto.
    destruct (is_dir f top) eqn:E; auto. apply H1 in E; simpl in E; lia.
  - destruct fuel2; simpl.
    + destruct (is_dir f top) eqn:E; auto. apply H2 in E; simpl in E; lia.
    + destruct (is_dir f top); auto. f_equal.
      apply flat_map_ext. intros dn. apply IH; intros p Hp;
        unfold os_path_join; rewrite length_app; simpl;
        [apply H1 in Hp | apply H2 in Hp]; lia.
Qed.

(** ** Effects of the script's functions *)

Section DoesScript.
Variable Phi : list event -> Prop.
Hypothesis HPhi : modular Phi.

Lemma does_delete_where (rule : string -> bool) (d : path) :
  (forall n, rule n = true ->
     Phi [Printed (deleting_line (os_path_join d n))] /\
     Phi [Printed (deleting_line (os_path_join d n));
          Removed (os_path_join d n)]) ->
  does Phi (delete_where rule d).
Proof.
  intros H. unfold delete_where.
  apply does_bind; auto.
  { apply does_listdir, (modular_nil _ HPhi). }
  intros names. apply does_for_each; auto. intros n _.
  unfold delete_entry. apply does_bind; auto.
  { unfold os_path_isfile. apply does_pure; auto. }
  intros isf. destruct (isf && rule n) eqn:E; [|apply does_ret; auto].
  apply andb_true_iff in E. destruct E as [_ E].
  destruct (H n E) as [H1 H2].
  intros w w' r Hr. unfold bind, print, emit in Hr.
  remember (World (fs w) (stdin w) (trace w ++ [Printed _])) as w1.
  assert (E1 : effect w w1 [Printed (deleting_line (os_path_join d n))]).
  { subst w1; split; simpl; auto; tauto. }
  unfold os_remove in Hr.
  replace (fs w1) with (fs w) in Hr by (subst w1; reflexivity).
  destruct (lookup (fs w) (os_path_join d n)) as [[[|]| |]|] eqn:El;
    inversion Hr; subst w' r; clear Hr;
    try (eexists; split; [exact E1 | exact H1]);
    (exists [Printed (deleting_line (os_path_join d n));
             Removed (os_path_join d n)]; split; [|exact H2]);
    (subst w1; split; simpl; auto;
     [rewrite <- app_assoc; reflexivity
     |intros q [<-|[]]; unfold removable; rewrite El; auto]).
Qed.

Lemma does_process_matched (ans : string) (dp : path) (dn : string) :
  Phi [Printed (processing_line (os_path_join dp dn))] ->
  (forall n,
     primary_rule n = true \/
     (String.eqb ans "y" = true /\ secondary_rule n = true) ->
     Phi [Printed (deleting_line (os_path_join (os_path_join dp dn) n))] /\
     Phi [Printed (deleting_line (os_path_join (os_path_join dp dn) n));
          Removed (os_path_join (os_path_join dp dn) n)]) ->
  does Phi (process_matched ans dp dn).
Proof.
  intros H1 H2. unfold process_matched.
  apply does_bind; auto. { apply does_print; exact H1. }
  intros _. apply does_bind; auto.
  { apply does_delete_where. intros n Hn; apply H2; auto. }
  intros _. destruct (String.eqb ans "y") eqn:E.
  - apply does_delete_where. intros n Hn; apply H2; auto.
  - apply does_ret; auto.
Qed.

Lemma does_work_entry (dir : path) (n : string) :
  Phi [Removed (os_path_join dir n);
       Printed (deleted_line (os_path_join dir n))] ->
  (forall e, Phi [Printed (failed_line (os_path_join dir n) e)]) ->
  does Phi (work_entry dir n).
Proof.
  intros H1 H2. unfold work_entry.
  apply does_bind; auto. { unfold os_path_isfile; apply does_pure; auto. }
  intros [|]; [|apply does_ret; auto].
  intros w w' r Hr. unfold try_except, bind, os_remove in Hr.
  destruct (lookup (fs w) (os_path_join dir n)) as [[[|]| |]|] eqn:El;
    unfold print, emit in Hr; cbv beta iota in Hr; inversion Hr;
    subst w' r; clear Hr.
  - exists [Removed (os_path_join dir n);
            Printed (deleted_line (os_path_join dir n))].
    split; [|exact H1]. split; cbn [trace fs stdin]; auto.
    + rewrite <- app_assoc; reflexivity.
    + intros q [<-|[]]; unfold removable; rewrite El; auto.
  - exists [Printed (failed_line (os_path_join dir n)
                                 (PermissionError (os_path_join dir n)))].
    split; [|apply H2].
    split; cbn [trace fs stdin]; [reflexivity | auto | auto | simpl; try tauto].
  - exists [Printed (failed_line (os_path_join dir n)
                                 (IsADirectoryError (os_path_join dir n)))].
    split; [|apply H2].
    split; cbn [trace fs stdin]; [reflexivity | auto | auto | simpl; try tauto].
  - exists [Removed (os_path_join dir n);
            Printed (deleted_line (os_path_join dir n))].
    split; [|exact H1]. split; cbn [trace fs stdin]; auto.
    + rewrite <- app_assoc; reflexivity.
    + intros q [<-|[]]; unfold removable; rewrite El; auto.
  - exists [Printed (failed_line (os_path_join dir n)
                                 (FileNotFoundError (os_path_join dir n)))].
    split; [|apply H2].
    split; cbn [trace fs stdin]; [reflexivity | auto | auto | simpl; try tauto].
Qed.

Lemma does_work_phase (dir : path) :
  (forall n,
     Phi [Removed (os_path_join dir n);
          Printed (deleted_line (os_path_join dir n))] /\
     forall e, Phi [Printed (failed_line (os_path_join dir n) e)]) ->
  Phi [Printed ("The directory " ++ path_str dir ++ " does not exist.")] ->
  does Phi (work_phase dir).
Proof.
  intros H1 H2. unfold work_phase.
  apply does_bind; auto. { unfold os_path_exists; apply does_pure; auto. }
  intros [|]; [|apply does_print; exact H2].
  apply does_bind; auto. { apply does_listdir, (modular_nil _ HPhi). }
  intros names. apply does_for_each; auto.
  intros n _. apply does_work_entry; apply H1.
Qed.
End DoesScript.

Lemma does_proc_any (ans : string) (t : path * string) :
  does any_trace (proc ans t).
Proof.
  apply does_process_matched; unfold any_trace; auto using any_trace_modular.
Qed.

Lemma does_pruned {A} (Phi : list event -> Prop) (m : M A) (w w' : world)
    (r : outcome A) :
  does Phi m -> m w = (w', r) -> pruned (fs w') (fs w).
Proof.
  intros H E. destruct (H _ _ _ E) as [tr [He _]].
  eapply effect_pruned; eauto.
Qed.

Section WalkRefine.
Variable ans : string.

Lemma walk_children (fuel : nat) (f : filesystem) (top : path)
    (dirs : list string) :
  (forall dn w1, In dn dirs -> pruned (fs w1) f ->
     os_walk_fuel fuel (os_path_join top dn) (walk_body ans) w1 =
     for_each (walk_tasks fuel f (os_path_join top dn)) (proc ans) w1) ->
  forall w1, pruned (fs w1) f ->
    for_each dirs
      (fun dn => os_walk_fuel fuel (os_path_join top dn) (walk_body ans)) w1 =
    for_each
      (flat_map (fun dn => walk_tasks fuel f (os_path_join top dn)) dirs)
      (proc ans) w1.
Proof.
  induction dirs as [|dn dirs IH]; intros H w1 Hp; simpl; auto.
  rewrite for_each_app. unfold bind.
  rewrite (H dn w1 (or_introl eq_refl) Hp).
  destruct (for_each (walk_tasks fuel f (os_path_join top dn)) (proc ans) w1)
    as [w2 [[]|e|]] eqn:E; auto.
  apply IH.
  - intros; apply H; auto. right; auto.
  - apply pruned_trans with (fs w1); auto.
    eapply does_pruned; [|exact E].
    apply does_for_each; auto using any_trace_modular, does_proc_any.
Qed.

Lemma os_walk_fuel_S (fuel : nat) (top : path)
    (body : path * list string * list string -> M unit) (w : world) :
  os_walk_fuel (S fuel) top body w =
  if is_dir (fs w) top then
    (body (top, subdirs (fs w) top,
           filter (fun n => negb (is_dir (fs w) (os_path_join top n)))
                  (names_in (fs w) top)) ;;
     for_each (subdirs (fs w) top) (fun dirname =>
       os_walk_fuel fuel (os_path_join top dirname) body)) w
  else (w, Val tt).
Proof. reflexivity. Qed.

Lemma walk_tasks_S (fuel : nat) (f : filesystem) (top : path) :
  walk_tasks (S fuel) f top =
  if is_dir f top then
    map (pair top) (fnmatch_filter (subdirs f top) "testcase*") ++
    flat_map (fun dn => walk_tasks fuel f (os_path_join top dn))
             (subdirs f top)
  else [].
Proof. reflexivity. Qed.

Lemma walk_refine (fuel : nat) :
  forall top w,
    (forall p, is_dir (fs w) p = true ->
               List.length p < S fuel + List.length top) ->
    os_walk_fuel (S fuel) top (walk_body ans) w =
    for_each (walk_tasks (S fuel) (fs w) top) (proc ans) w.
Proof.
  induction fuel as [|fuel IH]; intros top w Hb;
    rewrite os_walk_fuel_S, walk_tasks_S;
    (destruct (is_dir (fs w) top) eqn:Ed; [|reflexivity]);
    rewrite for_each_app; unfold bind;
    rewrite for_each_map; unfold walk_body at 1;
    change (fun x => proc ans (top, x)) with (process_matched ans top);
    (destruct (for_each (fnmatch_filter (subdirs (fs w) top) "testcase*")
                (process_matched ans top) w) as [w1 [[]|e|]] eqn:E; auto);
    (assert (Hp : pruned (fs w1) (fs w));
     [ eapply does_pruned; [|exact E];
       apply does_for_each; auto using any_trace_modular;
       intros dn _; apply (does_proc_any ans (top, dn)) |]);
    apply walk_children; auto; intros dn w2 Hin Hp2.
  - (* no fuel left for the children: there are none *)
    unfold subdirs in Hin. apply filter_In in Hin. destruct Hin as [_ Hd].
    apply Hb in Hd. unfold os_path_join in Hd.
    rewrite length_app in Hd; simpl in Hd; lia.
  - rewrite IH.
    + rewrite (walk_tasks_pruned _ _ _ _ Hp2); reflexivity.
    + intros p Hpd. rewrite (pruned_is_dir _ _ _ Hp2) in Hpd.
      apply Hb in Hpd. unfold os_path_join.
      rewrite length_app; simpl; lia.
Qed.
End WalkRefine.

Lemma depth_bound_is_dir (f : filesystem) (p : path) :
  is_dir f p = true -> List.length p < depth_bound f.
Proof.
  unfold is_dir, depth_bound. induction f as [|[q k] f IH]; simpl.
  - discriminate.
  - destruct (path_eqb q p) eqn:E.
    + apply path_eqb_eq in E; subst q. intros _. lia.
    + intros H. apply IH in H. lia.
Qed.

Lemma tree_phase_tasks (top : path) (ans : string) (w : world) :
  tree_phase top ans w = for_each (matched_tasks (fs w) top) (proc ans) w.
Proof.
  unfold tree_phase, os_walk, matched_tasks.
  destruct (depth_bound (fs w)) as [|n] eqn:E; [discriminate E|].
  apply walk_refine. intros p Hp. apply depth_bound_is_dir in Hp.
  rewrite <- E. lia.
Qed.

Lemma matched_tasks_pruned (f' f : filesystem) (top : path) :
  pruned f' f -> matched_tasks f' top = matched_tasks f top.
Proof.
  intros H. unfold matched_tasks.
  rewrite (walk_tasks_pruned _ _ _ _ H).
  apply walk_tasks_fuel; intros p Hp.
  - rewrite <- (pruned_is_dir _ _ _ H) in Hp.
    apply depth_bound_is_dir in Hp; lia.
  - apply depth_bound_is_dir in Hp; lia.
Qed.

(** ** The pattern [testcase*] *)

Lemma fnmatch_star_end (s : string) : fnmatch "*" s = true.
Proof.
  induction s as [|c s IH]; [reflexivity|].
  change (fnmatch "*" (String c s))
    with (fnmatch "" (String c s) || fnmatch "*" s).
  rewrite IH. apply orb_true_r.
Qed.

(** One literal character of the pattern against the next character. *)
Ltac fnmatch_char :=
  match goal with
  | |- fnmatch (String ?a ?p) ?s = String.prefix (String ?a ?q) ?s =>
      let c := fresh "c" in
      destruct s as [|c s]; [reflexivity|];
      change (fnmatch (String a p) (String c s))
        with (Ascii.eqb a c && fnmatch p s);
      change (String.prefix (String a q) (String c s))
        with (if ascii_dec a c then String.prefix q s else false);
      destruct (ascii_dec a c) as [<-|Hne];
      [rewrite Ascii.eqb_refl; cbn [andb]
      |apply Ascii.eqb_neq in Hne; rewrite Hne; reflexivity]
  end.

(** Matching [testcase*] is starting with [testcase]. *)
Lemma fnmatch_testcase (s : string) :
  fnmatch "testcase*" s = startswith "testcase" s.
Proof.
  unfold startswith. do 8 fnmatch_char.
  rewrite fnmatch_star_end. destruct s; reflexivity.
Qed.

(** ** Which directories are matched *)

Lemma subdirs_in (f : filesystem) (d : path) (dn : string) :
  In dn (subdirs f d) <-> is_dir f (os_path_join d dn) = true.
Proof.
  unfold subdirs. rewrite filter_In, names_in_present.
  unfold is_dir, present.
  destruct (lookup f (os_path_join d dn)); intuition congruence.
Qed.

Lemma chain_dirs_top (f : filesystem) (top q : path) :
  chain_dirs f top q = true -> is_dir f top = true.
Proof. destruct q; simpl; rewrite andb_true_iff; tauto. Qed.

Lemma walk_tasks_sound (fuel : nat) (f : filesystem) :
  forall top dp dn,
    In (dp, dn) (walk_tasks fuel f top) -> matched f top dp dn.
Proof.
  induction fuel as [|fuel IH]; intros top dp dn; simpl; [tauto|].
  destruct (is_dir f top) eqn:Ed; simpl; [|tauto].
  rewrite in_app_iff, in_map_iff, in_flat_map.
  intros [[x [Hx Hin]] | [x [Hx Hin]]].
  - inversion Hx; subst. unfold fnmatch_filter in Hin.
    apply filter_In in Hin. destruct Hin as [Hs Hm].
    exists []. rewrite app_nil_r. simpl. rewrite Ed.
    apply subdirs_in in Hs. repeat split; auto.
  - apply IH in Hin. destruct Hin as [q [-> [Hc [Hd Hm]]]].
    exists (x :: q). unfold os_path_join in *. rewrite <- app_assoc. simpl.
    rewrite Ed. repeat split; auto.
    rewrite <- Hd. f_equal. rewrite <- !app_assoc. reflexivity.
Qed.

Lemma walk_tasks_complete (f : filesystem) (dn : string) :
  forall q top fuel,
    chain_dirs f top q = true ->
    is_dir f (os_path_join (top ++ q) dn) = true ->
    fnmatch "testcase*" dn = true ->
    List.length q < fuel ->
    In (top ++ q, dn) (walk_tasks fuel f top).
Proof.
  induction q as [|x q IH]; intros top fuel Hc Hd Hm Hf;
    (destruct fuel as [|fuel]; [simpl in Hf; lia|]);
    rewrite walk_tasks_S; simpl in Hc; apply andb_true_iff in Hc;
    destruct Hc as [Ht Hc]; rewrite Ht; apply in_or_app.
  - left. rewrite app_nil_r in *. apply in_map.
    apply filter_In. split; auto. apply subdirs_in; auto.
  - right. apply in_flat_map. exists x. split.
    + apply subdirs_in. eapply chain_dirs_top; eauto.
    + replace (top ++ x :: q) with (os_path_join top x ++ q) in *
        by (unfold os_path_join; rewrite <- app_assoc; reflexivity).
      apply IH; auto. simpl in Hf; lia.
Qed.

Lemma matched_tasks_in (f : filesystem) (top dp : path) (dn : string) :
  In (dp, dn) (matched_tasks f top) <-> matched f top dp dn.
Proof.
  split; [apply walk_tasks_sound|].
  intros [q [-> [Hc [Hd Hm]]]]. apply walk_tasks_complete; auto.
  apply depth_bound_is_dir in Hd. unfold os_path_join in Hd.
  rewrite !length_app in Hd. lia.
Qed.

(** ** The shape of a run's trace *)

Lemma star_one (seg : list event -> Prop) (s : list event) :
  seg s -> star seg s.
Proof.
  intros H. rewrite <- (app_nil_r s). apply star_cons; [exact H | constructor].
Qed.

Lemma star_modular (seg : list event -> Prop) : modular (star seg).
Proof.
  split; [constructor|].
  intros tr1 tr2 H1 H2. induction H1 as [|s tr Hs Ht IH]; simpl; auto.
  rewrite <- app_assoc. apply star_cons; auto.
Qed.

Lemma does_tree_phase (top : path) (ans : string) :
  does (star (tree_seg ans top)) (tree_phase top ans).
Proof.
  intros w w' r H. rewrite tree_phase_tasks in H. revert w w' r H.
  intros w. generalize (matched_tasks_in (fs w) top).
  generalize (matched_tasks (fs w) top) as tasks. intros tasks Hin.
  apply does_for_each; [apply star_modular|].
  intros [dp dn] Ht. apply Hin in Ht. destruct Ht as [q [-> [_ [_ Hm]]]].
  apply does_process_matched; [apply star_modular | |].
  - apply star_one, seg_processing; exact Hm.
  - intros n Hn.
    assert (Ht : target ans top
                   (os_path_join (os_path_join (top ++ q) dn) n)).
    { exists q, dn, n. repeat split; auto. unfold deletion_rule.
      destruct Hn as [-> | [-> ->]]; auto using orb_true_r. }
    split; apply star_one; [apply seg_refused | apply seg_deleted]; exact Ht.
Qed.

Lemma does_work_phase_seg (dir : path) :
  does (star (work_seg dir)) (work_phase dir).
Proof.
  apply does_work_phase; [apply star_modular | |].
  - intros n. split; [|intros e]; apply star_one; constructor.
  - apply star_one; constructor.
Qed.

(** A run that got its answer: the prompt, the tree phase, the work phase. *)
Lemma script_answered (top work : path) (ans : string) (rest : list string)
    (f : filesystem) :
  run top work (ans :: rest) f =
  (tree_phase top ans ;; work_phase work)
    (World f rest [ReadLine "Delete MATLAB files? (y/n): "]).
Proof. reflexivity. Qed.

Lemma script_no_answer (top work : path) (f : filesystem) :
  run top work [] f =
  (World f [] [ReadLine "Delete MATLAB files? (y/n): "], Raised EOFError).
Proof. reflexivity. Qed.

(** ** One directory entry at a time *)

Lemma delete_entry_cases (rule : string -> bool) (d : path) (n : string)
    (w : world) :
  let p := os_path_join d n in
  (is_file (fs w) p && rule n = false /\
   delete_entry rule d n w = (w, Val tt)) \/
  (rule n = true /\ lookup (fs w) p = Some (KFile true) /\
   delete_entry rule d n w =
   (World (unlink p (fs w)) (stdin w)
          (trace w ++ [Printed (deleting_line p); Removed p]), Val tt)) \/
  (rule n = true /\ lookup (fs w) p = Some (KFile false) /\
   delete_entry rule d n w =
   (World (fs w) (stdin w) (trace w ++ [Printed (deleting_line p)]),
    Raised (PermissionError p))).
Proof.
  intros p. unfold delete_entry, bind, os_path_isfile. fold p.
  destruct (is_file (fs w) p && rule n) eqn:E; [|left; auto].
  right. apply andb_true_iff in E. destruct E as [Hf Hr].
  unfold is_file in Hf. unfold print, emit, os_remove.
  cbn [fs stdin trace].
  destruct (lookup (fs w) p) as [[[|]| |]|] eqn:El; try discriminate.
  - left. repeat split; auto. rewrite <- app_assoc. reflexivity.
  - right. repeat split; auto.
Qed.

Lemma work_entry_cases (dir : path) (n : string) (w : world) :
  let p := os_path_join dir n in
  (is_file (fs w) p = false /\ work_entry dir n w = (w, Val tt)) \/
  (lookup (fs w) p = Some (KFile true) /\
   work_entry dir n w =
   (World (unlink p (fs w)) (stdin w)
          (trace w ++ [Removed p; Printed (deleted_line p)]), Val tt)) \/
  (lookup (fs w) p = Some (KFile false) /\
   work_entry dir n w =
   (World (fs w) (stdin w)
          (trace w ++ [Printed (failed_line p (PermissionError p))]),
    Val tt)).
Proof.
  intros p. unfold work_entry, bind, os_path_isfile. fold p.
  destruct (is_file (fs w) p) eqn:Hf; [|left; auto].
  right. unfold is_file in Hf. unfold try_except, bind, print, emit, os_remove.
  destruct (lookup (fs w) p) as [[[|]| |]|] eqn:El; try discriminate.
  - left. split; auto. cbn [fs stdin trace].
    rewrite <- app_assoc. reflexivity.
  - right. split; auto.
Qed.

(** ** Where a loop has been *)

Lemma after_refl (w : world) : after w w.
Proof. exists []; apply effect_nil. Qed.

Lemma after_trans (w1 w2 w3 : world) : after w1 w2 -> after w2 w3 -> after w1 w3.
Proof. intros [t1 H1] [t2 H2]. exists (t1 ++ t2). eapply effect_app; eauto. Qed.

Lemma after_pruned (w w' : world) : after w w' -> pruned (fs w') (fs w).
Proof. intros [tr H]. eapply effect_pruned; eauto. Qed.

Lemma after_trace (w w' : world) (e : event) :
  after w w' -> In e (trace w) -> In e (trace w').
Proof.
  intros [tr H] Hin. rewrite (eff_trace _ _ _ H). apply in_or_app; auto.
Qed.

Lemma does_after {A} (Phi : list event -> Prop) (m : M A) (w w' : world)
    (r : outcome A) :
  does Phi m -> m w = (w', r) -> after w w'.
Proof. intros H E. destruct (H _ _ _ E) as [tr [He _]]. exists tr; auto. Qed.

Section Loops.
Context {A : Type}.
Variable body : A -> M unit.
Hypothesis Hbody : forall x, does any_trace (body x).

Lemma for_each_after (xs : list A) (w w' : world) (r : outcome unit) :
  for_each xs body w = (w', r) -> after w w'.
Proof.
  apply does_after with (Phi := any_trace).
  apply does_for_each; auto using any_trace_modular.
Qed.

(** A loop that returns has run its body, to the end, on every element. *)
Lemma for_each_visits (xs : list A) (w w' : world) (x : A) :
  for_each xs body w = (w', Val tt) -> In x xs ->
  exists w1 w2, after w w1 /\ body x w1 = (w2, Val tt) /\ after w2 w'.
Proof.
  revert w; induction xs as [|y xs IH]; intros w H Hin; [destruct Hin|].
  simpl in H. unfold bind in H.
  destruct (body y w) as [w1 [[]|e|]] eqn:E; try discriminate.
  destruct Hin as [->|Hin].
  - exists w, w1. repeat split; auto using after_refl.
    eapply for_each_after; eauto.
  - destruct (IH _ H Hin) as [wa [wb [Ha [Hb Hc]]]].
    exists wa, wb. repeat split; auto.
    eapply after_trans; [|exact Ha]. eapply does_after; eauto.
Qed.

(** A loop that raises stops in the iteration that raised, after the
    earlier ones returned. *)
Lemma for_each_raised (xs : list A) (w w' : world) (e : exn) :
  for_each xs body w = (w', Raised e) ->
  exists x w1, In x xs /\ after w w1 /\ body x w1 = (w', Raised e).
Proof.
  revert w; induction xs as [|y xs IH]; intros w H; [discriminate H|].
  simpl in H. unfold bind in H.
  destruct (body y w) as [w1 [[]|e1|]] eqn:E; try discriminate.
  - destruct (IH _ H) as [x [wa [Hin [Ha Hb]]]].
    exists x, wa. split; [right; exact Hin | split; [|exact Hb]].
    eapply after_trans; [|exact Ha]. eapply does_after; eauto.
  - inversion H; subst. exists y, w.
    split; [left; reflexivity | split; auto using after_refl].
Qed.

(** A loop runs out of fuel only if its body does. *)
Lemma for_each_fuel (xs : list A) (w w' : world) :
  (forall x w1 w2, body x w1 <> (w2, OutOfFuel)) ->
  for_each xs body w <> (w', OutOfFuel).
Proof.
  intros Hf. revert w; induction xs as [|y xs IH]; intros w H;
    [discriminate H|].
  simpl in H. unfold bind in H.
  destruct (body y w) as [w1 [[]|e1|]] eqn:E; try discriminate.
  - eapply IH; eauto.
  - inversion H; subst. eapply Hf; eauto.
Qed.
End Loops.

(** ** One matched directory *)

Lemma pruned_not_file (f' f : filesystem) (p : path) :
  pruned f' f -> is_file f p = false -> is_file f' p = false.
Proof.
  intros H Hf. destruct (is_file f' p) eqn:E; auto.
  pose proof (pruned_is_file _ _ _ H E) as Hl.
  unfold is_file in *. rewrite Hl in E. congruence.
Qed.

Lemma does_delete_entry_any (rule : string -> bool) (d : path) (n : string) :
  does any_trace (delete_entry rule d n).
Proof.
  intros w w' r H.
  destruct (delete_entry_cases rule d n w) as [[_ E]|[[_ [El E]]|[_ [El E]]]];
    rewrite E in H; inversion H; subst; clear H.
  - exists []; split; [apply effect_nil | exact I].
  - eexists; split; [|exact I]. split; cbn [fs stdin trace]; eauto.
    intros q [<-|[]]; unfold removable; rewrite El; auto.
  - eexists; split; [|exact I]. split; cbn [fs stdin trace]; eauto.
Qed.

Lemma delete_where_clean (rule : string -> bool) (d : path) (w w' : world) :
  delete_where rule d w = (w', Val tt) ->
  forall n, rule n = true -> is_file (fs w') (os_path_join d n) = false.
Proof.
  unfold delete_where, bind, os_listdir. intros H n Hn.
  destruct (lookup (fs w) d) as [[| |]|]; try discriminate.
  pose proof (for_each_after _ (does_delete_entry_any rule d) _ _ _ _ H) as Ha.
  destruct (in_dec string_dec n (names_in (fs w) d)) as [Hin|Hnin].
  - destruct (for_each_visits _ (does_delete_entry_any rule d) _ _ _ _ H Hin)
      as [w1 [w2 [H1 [Hb H2]]]].
    apply pruned_not_file with (fs w2); [apply after_pruned; exact H2|].
    destruct (delete_entry_cases rule d n w1)
      as [[Hf E]|[[_ [El E]]|[_ [El E]]]];
      rewrite E in Hb; inversion Hb; subst; clear Hb.
    + rewrite Hn, andb_true_r in Hf. exact Hf.
    + unfold is_file; cbn [fs]. rewrite lookup_unlink_same. reflexivity.
  - apply pruned_not_file with (fs w); [apply after_pruned; exact Ha|].
    rewrite names_in_present in Hnin. unfold present, is_file in *.
    destruct (lookup (fs w) (os_path_join d n)); congruence.
Qed.

Lemma delete_where_raised (rule : string -> bool) (d : path) (w w' : world)
    (e : exn) :
  is_dir (fs w) d = true ->
  delete_where rule d w = (w', Raised e) ->
  exists n tr, e = PermissionError (os_path_join d n) /\ rule n = true /\
    lookup (fs w') (os_path_join d n) = Some (KFile false) /\
    trace w' = tr ++ [Printed (deleting_line (os_path_join d n))].
Proof.
  unfold delete_where, bind, os_listdir, is_dir. intros Hd H.
  destruct (lookup (fs w) d) as [[| |]|]; try discriminate.
  destruct (for_each_raised _ (does_delete_entry_any rule d) _ _ _ _ H)
    as [n [w1 [_ [_ Hb]]]].
  destruct (delete_entry_cases rule d n w1)
    as [[Hf E]|[[_ [El E]]|[Hr [El E]]]];
    rewrite E in Hb; inversion Hb; subst; clear Hb.
  exists n, (trace w1). auto.
Qed.

Lemma delete_where_fuel (rule : string -> bool) (d : path) (w w' : world) :
  delete_where rule d w <> (w', OutOfFuel).
Proof.
  unfold delete_where, bind, os_listdir. intros H.
  destruct (lookup (fs w) d) as [[| |]|]; try discriminate.
  revert H. apply for_each_fuel. intros n w1 w2 Hb.
  destruct (delete_entry_cases rule d n w1)
    as [[Hf E]|[[_ [El E]]|[Hr [El E]]]]; rewrite E in Hb; discriminate.
Qed.

Lemma does_delete_where_any (rule : string -> bool) (d : path) :
  does any_trace (delete_where rule d).
Proof.
  apply does_delete_where; unfold any_trace; auto using any_trace_modular.
Qed.

Section Matched.
Variables (ans : string) (dp : path) (dn : string).
Local Abbreviation d := (os_path_join dp dn).

Lemma process_matched_unfold (w : world) :
  process_matched ans dp dn w =
  (delete_where primary_rule d ;;
   if String.eqb ans "y" then delete_where secondary_rule d else ret tt)
    (World (fs w) (stdin w) (trace w ++ [Printed (processing_line d)])).
Proof. reflexivity. Qed.

Lemma process_matched_done (w w' : world) :
  process_matched ans dp dn w = (w', Val tt) ->
  In (Printed (processing_line d)) (trace w') /\
  forall n, deletion_rule ans n = true ->
            is_file (fs w') (os_path_join d n) = false.
Proof.
  rewrite process_matched_unfold. unfold bind.
  set (w0 := World _ _ _).
  destruct (delete_where primary_rule d w0) as [w1 [[]|e|]] eqn:E1;
    try discriminate.
  intros E2.
  assert (Ha : after w1 w').
  { destruct (String.eqb ans "y").
    - eapply does_after; [apply does_delete_where_any | exact E2].
    - inversion E2; apply after_refl. }
  split.
  - apply after_trace with w1; auto.
    apply after_trace with w0;
      [eapply does_after; [apply does_delete_where_any | exact E1]|].
    subst w0; cbn [trace]. apply in_or_app; right; left; reflexivity.
  - intros n Hn. unfold deletion_rule in Hn.
    apply orb_true_iff in Hn. destruct Hn as [Hn|Hn].
    + apply pruned_not_file with (fs w1); [apply after_pruned; exact Ha|].
      eapply delete_where_clean; eauto.
    + apply andb_true_iff in Hn. destruct Hn as [Hy Hn].
      rewrite Hy in E2. eapply delete_where_clean; eauto.
Qed.

Lemma process_matched_raised (w w' : world) (e : exn) :
  is_dir (fs w) d = true ->
  process_matched ans dp dn w = (w', Raised e) ->
  exists n tr, e = PermissionError (os_path_join d n) /\
    deletion_rule ans n = true /\
    lookup (fs w') (os_path_join d n) = Some (KFile false) /\
    trace w' = tr ++ [Printed (deleting_line (os_path_join d n))].
Proof.
  rewrite process_matched_unfold. unfold bind.
  set (w0 := World _ _ _). intros Hd.
  destruct (delete_where primary_rule d w0) as [w1 [[]|e1|]] eqn:E1;
    try discriminate.
  - destruct (String.eqb ans "y") eqn:Hy; [|discriminate].
    intros E2. apply delete_where_raised in E2.
    + destruct E2 as [n [tr [He [Hr [Hl Ht]]]]]. exists n, tr.
      repeat split; auto. unfold deletion_rule.
      rewrite Hy, Hr. apply orb_true_r.
    + rewrite (pruned_is_dir (fs w1) (fs w0)); auto.
      apply after_pruned. eapply does_after;
        [apply does_delete_where_any | exact E1].
  - intros E2. inversion E2; subst.
    apply delete_where_raised in E1; [|exact Hd].
    destruct E1 as [n [tr [He [Hr [Hl Ht]]]]]. exists n, tr.
    repeat split; auto. unfold deletion_rule. rewrite Hr. reflexivity.
Qed.

Lemma process_matched_fuel (w w' : world) :
  process_matched ans dp dn w <> (w', OutOfFuel).
Proof.
  rewrite process_matched_unfold. unfold bind.
  set (w0 := World _ _ _).
  destruct (delete_where primary_rule d w0) as [w1 [[]|e1|]] eqn:E1;
    try discriminate.
  - destruct (String.eqb ans "y"); [apply delete_where_fuel | discriminate].
  - apply delete_where_fuel in E1. destruct E1.
Qed.
End Matched.

(** ** The tree phase as a whole *)

Lemma tree_phase_after (top : path) (ans : string) (w w' : world)
    (r : outcome unit) :
  tree_phase top ans w = (w', r) -> after w w'.
Proof. apply does_after with (Phi := star (tree_seg ans top)), does_tree_phase. Qed.

Lemma tree_phase_done (top : path) (ans : string) (w w' : world) :
  tree_phase top ans w = (w', Val tt) ->
  forall dp dn, matched (fs w) top dp dn ->
    In (Printed (processing_line (os_path_join dp dn))) (trace w') /\
    forall n, deletion_rule ans n = true ->
      is_file (fs w') (os_path_join (os_path_join dp dn) n) = false.
Proof.
  rewrite tree_phase_tasks. intros H dp dn Hm.
  apply matched_tasks_in in Hm.
  destruct (for_each_visits _ (does_proc_any ans) _ _ _ _ H Hm)
    as [w1 [w2 [_ [Hb Ha]]]].
  apply process_matched_done in Hb. destruct Hb as [Hl Hc]. split.
  - eapply after_trace; eauto.
  - intros n Hn. apply pruned_not_file with (fs w2); auto using after_pruned.
Qed.

Lemma tree_phase_raised (top : path) (ans : string) (w w' : world) (e : exn) :
  tree_phase top ans w = (w', Raised e) ->
  exists p tr, e = PermissionError p /\ target ans top p /\
    lookup (fs w') p = Some (KFile false) /\
    trace w' = tr ++ [Printed (deleting_line p)].
Proof.
  rewrite tree_phase_tasks. intros H.
  destruct (for_each_raised _ (does_proc_any ans) _ _ _ _ H)
    as [[dp dn] [w1 [Hin [Ha Hb]]]].
  apply matched_tasks_in in Hin. destruct Hin as [q [-> [_ [Hd Hm]]]].
  apply process_matched_raised in Hb.
  - destruct Hb as [n [tr [He [Hr [Hl Ht]]]]].
    exists (os_path_join (os_path_join (top ++ q) dn) n), tr.
    repeat split; auto. exists q, dn, n. auto.
  - rewrite (pruned_is_dir _ (fs w)); auto using after_pruned.
Qed.

(** The walk always has the fuel it needs. *)
Lemma tree_phase_fuel (top : path) (ans : string) (w w' : world) :
  tree_phase top ans w <> (w', OutOfFuel).
Proof.
  rewrite tree_phase_tasks. apply for_each_fuel.
  intros [dp dn] w1 w2. apply process_matched_fuel.
Qed.

(** ** Facts about traces of segments *)

Lemma tree_removed_target (ans : string) (top : path) (tr : list event)
    (p : path) :
  star (tree_seg ans top) tr -> In (Removed p) tr -> target ans top p.
Proof.
  induction 1 as [|s tr Hs Ht IH]; simpl; [tauto|].
  rewrite in_app_iff. intros [Hin|Hin]; auto.
  destruct Hs; simpl in Hin; intuition (try discriminate).
  congruence.
Qed.

(** In a tree-phase trace the event just before a removal is the line
    that announces it. *)
Lemma tree_removed_announced (ans : string) (top : path) (tr : list event) :
  star (tree_seg ans top) tr ->
  forall tr1 p tr2, tr = tr1 ++ Removed p :: tr2 ->
    exists tr0, tr1 = tr0 ++ [Printed (deleting_line p)].
Proof.
  induction 1 as [|s tr Hs Ht IH]; intros tr1 p tr2 E.
  - destruct tr1; discriminate.
  - destruct Hs as [q dn Hm | p' Hp | p' Hp]; simpl in E.
    + destruct tr1 as [|e tr1]; simpl in E; [discriminate|].
      inversion E; subst. destruct (IH _ _ _ eq_refl) as [tr0 ->].
      exists (Printed (processing_line (os_path_join (top ++ q) dn)) :: tr0).
      reflexivity.
    + destruct tr1 as [|e tr1]; simpl in E; [discriminate|].
      inversion E; subst. destruct (IH _ _ _ eq_refl) as [tr0 ->].
      exists (Printed (deleting_line p') :: tr0). reflexivity.
    + destruct tr1 as [|e [|e' tr1]]; simpl in E; [discriminate| |].
      * inversion E; subst. exists []. reflexivity.
      * inversion E; subst. destruct (IH _ _ _ eq_refl) as [tr0 ->].
        exists (Printed (deleting_line p') :: Removed p' :: tr0). reflexivity.
Qed.

Lemma work_removed_child (dir : path) (tr : list event) (p : path) :
  star (work_seg dir) tr -> In (Removed p) tr ->
  exists n, p = os_path_join dir n.
Proof.
  induction 1 as [|s tr Hs Ht IH]; simpl; [tauto|].
  rewrite in_app_iff. intros [Hin|Hin]; auto.
  destruct Hs; simpl in Hin; intuition (try discriminate).
  inversion H; eauto.
Qed.

(** In a work-phase trace the event just after a removal is the line that
    reports it. *)
Lemma work_removed_reported (dir : path) (tr : list event) :
  star (work_seg dir) tr ->
  forall tr1 p tr2, tr = tr1 ++ Removed p :: tr2 ->
    exists tr3, tr2 = Printed (deleted_line p) :: tr3.
Proof.
  induction 1 as [|s tr Hs Ht IH]; intros tr1 p tr2 E.
  - destruct tr1; discriminate.
  - destruct Hs as [n | n e | ]; simpl in E.
    + destruct tr1 as [|e [|e' tr1]]; simpl in E.
      * inversion E; subst. eauto.
      * inversion E.
      * inversion E; subst. eapply IH; eauto.
    + destruct tr1 as [|e' tr1]; simpl in E; [discriminate|].
      inversion E; subst. eapply IH; eauto.
    + destruct tr1 as [|e' tr1]; simpl in E; [discriminate|].
      inversion E; subst. eapply IH; eauto.
Qed.

(** * The claims *)

(** ** C8: a missing root directory *)

(** C8.  When the root directory does not exist the walk finds no matched
    directory, the tree phase changes nothing, prints nothing and raises
    nothing, and the run goes on with the work-directory phase. *)
Theorem missing_root_is_silent (top work : path) (ans : string)
    (rest : list string) (f : filesystem) :
  lookup f top = None ->
  matched_tasks f top = [] /\
  (forall w, fs w = f -> tree_phase top ans w = (w, Val tt)) /\
  run top work (ans :: rest) f =
  work_phase work (World f rest [ReadLine prompt]).
Proof.
  intros H.
  assert (Hd : is_dir f top = false) by (unfold is_dir; rewrite H; auto).
  assert (Ht : forall w, fs w = f -> tree_phase top ans w = (w, Val tt)).
  { intros w <-. unfold tree_phase, os_walk, depth_bound.
    rewrite os_walk_fuel_S, Hd. reflexivity. }
  repeat split; auto.
  - unfold matched_tasks, depth_bound. rewrite walk_tasks_S, Hd. reflexivity.
  - rewrite script_answered. unfold bind, prompt.
    rewrite Ht by reflexivity. reflexivity.
Qed.

Lemma missing_root_is_silent_witness :
  matched_tasks rootless_fs main_folder = [] /\
  (forall w, fs w = rootless_fs ->
             tree_phase main_folder "y" w = (w, Val tt)) /\
  run main_folder work_dir ["y"] rootless_fs =
  work_phase work_dir (World rootless_fs [] [ReadLine prompt]).
Proof.
  apply (missing_root_is_silent main_folder work_dir "y" [] rootless_fs).
  reflexivity.
Defined.

(** ** C7: a missing work directory *)

Lemma work_phase_missing (work : path) (w : world) :
  lookup (fs w) work = None ->
  work_phase work w =
  (World (fs w) (stdin w)
     (trace w ++
      [Printed ("The directory " ++ path_str work ++ " does not exist.")]),
   Val tt).
Proof.
  intros H. unfold work_phase, bind, os_path_exists, present.
  rewrite H. reflexivity.
Qed.



(** ** C6: only matched directories are cleaned *)

Lemma target_shape (ans : string) (top d : path) (dn n : string) :
  target ans top (os_path_join (os_path_join d dn) n) ->
  fnmatch "testcase*" dn = true /\ deletion_rule ans n = true /\
  exists q, d = top ++ q.
Proof.
  intros [q [dn' [n' [E [Hm Hr]]]]].
  apply join_inj in E. destruct E as [E ->].
  apply join_inj in E. destruct E as [-> ->]. eauto.
Qed.

(** C6.  In the tree phase a file is removed only from a directory whose
    own name matches [testcase*]: whatever sits in a directory of another
    name is still there afterwards.  The walk nevertheless goes down every
    directory: when the phase returns, every directory named [testcase*]
    that can be reached from the root through directories, whatever their
    names, has been processed. *)
Theorem tree_phase_only_cleans_matched (top : path) (ans : string)
    (lines : list string) (f : filesystem) (w' : world) (r : outcome unit) :
  tree_phase top ans (World f lines []) = (w', r) ->
  (forall d dn n, fnmatch "testcase*" dn = false ->
     ~ In (Removed (os_path_join (os_path_join d dn) n)) (trace w') /\
     lookup (fs w') (os_path_join (os_path_join d dn) n) =
     lookup f (os_path_join (os_path_join d dn) n)) /\
  (forall p, In (Removed p) (trace w') ->
     exists q dn n, p = os_path_join (os_path_join (top ++ q) dn) n /\
                    fnmatch "testcase*" dn = true) /\
  (r = Val tt ->
   forall q dn, chain_dirs f top q = true ->
     is_dir f (os_path_join (top ++ q) dn) = true ->
     fnmatch "testcase*" dn = true ->
     In (Printed (processing_line (os_path_join (top ++ q) dn))) (trace w')).
Proof.
  intros H.
  destruct (does_tree_phase top ans _ _ _ H) as [tr [He Hs]].
  pose proof (eff_trace _ _ _ He) as Ht. cbn [trace app] in Ht.
  assert (Hrm : forall p, In (Removed p) (trace w') -> target ans top p).
  { intros p Hp. rewrite Ht in Hp. eapply tree_removed_target; eauto. }
  split; [|split].
  - intros d dn n Hm.
    assert (Hn : ~ In (Removed (os_path_join (os_path_join d dn) n))
                   (trace w')).
    { intros Hp. apply Hrm, target_shape in Hp. destruct Hp as [Hm' _].
      congruence. }
    split; auto.
    destruct (effect_lookup _ _ _ (os_path_join (os_path_join d dn) n) He)
      as [[Hin _]|[_ Hl]]; [|exact Hl].
    rewrite Ht in Hn. contradiction.
  - intros p Hp. destruct (Hrm p Hp) as [q [dn [n [E [Hm _]]]]]. eauto.
  - intros -> q dn Hc Hd Hm.
    apply (tree_phase_done _ _ _ _ H (top ++ q) dn).
    exists q. auto.
Qed.

Lemma tree_phase_only_cleans_matched_witness :
  let w' := fst (tree_phase main_folder "y" (World sample_fs [] [])) in
  (forall d dn n, fnmatch "testcase*" dn = false ->
     ~ In (Removed (os_path_join (os_path_join d dn) n)) (trace w') /\
     lookup (fs w') (os_path_join (os_path_join d dn) n) =
     lookup sample_fs (os_path_join (os_path_join d dn) n)) /\
  (forall p, In (Removed p) (trace w') ->
     exists q dn n, p = os_path_join (os_path_join (main_folder ++ q) dn) n /\
                    fnmatch "testcase*" dn = true) /\
  (snd (tree_phase main_folder "y" (World sample_fs [] [])) = Val tt ->
   forall q dn, chain_dirs sample_fs main_folder q = true ->
     is_dir sample_fs (os_path_join (main_folder ++ q) dn) = true ->
     fnmatch "testcase*" dn = true ->
     In (Printed (processing_line (os_path_join (main_folder ++ q) dn)))
        (trace w')).
Proof.
  apply (tree_phase_only_cleans_matched main_folder "y" [] sample_fs).
  apply surjective_pairing.
Defined.

(** ** C10: the root itself is not a matched directory *)

(** C10.  Whatever the root directory is called, also when its own name
    matches [testcase*], the tree phase removes nothing that sits directly
    in the root. *)
Theorem root_is_never_matched (top : path) (ans : string)
    (lines : list string) (f : filesystem) (w' : world) (r : outcome unit) :
  tree_phase top ans (World f lines []) = (w', r) ->
  forall n, ~ In (Removed (os_path_join top n)) (trace w') /\
            lookup (fs w') (os_path_join top n) = lookup f (os_path_join top n).
Proof.
  intros H n.
  destruct (does_tree_phase top ans _ _ _ H) as [tr [He Hs]].
  pose proof (eff_trace _ _ _ He) as Ht. cbn [trace app] in Ht.
  assert (Hn : ~ In (Removed (os_path_join top n)) tr).
  { intros Hp. apply (tree_removed_target _ _ _ _ Hs) in Hp.
    destruct Hp as [q [dn [n' [E _]]]].
    apply (f_equal (@List.length string)) in E. unfold os_path_join in E.
    rewrite !length_app in E. simpl in E. lia. }
  rewrite Ht. split; auto.
  destruct (effect_lookup _ _ _ (os_path_join top n) He)
    as [[Hin _]|[_ Hl]]; [contradiction | exact Hl].
Qed.

Lemma root_is_never_matched_witness :
  fnmatch "testcase*" "testcase_root" = true /\
  forall n,
    ~ In (Removed (os_path_join ["testcase_root"] n))
         (trace (fst (tree_phase ["testcase_root"] "y"
                        (World testcase_root_fs [] [])))) /\
    lookup (fs (fst (tree_phase ["testcase_root"] "y"
                       (World testcase_root_fs [] []))))
           (os_path_join ["testcase_root"] n) =
    lookup testcase_root_fs (os_path_join ["testcase_root"] n).
Proof.
  split; [reflexivity|].
  apply (root_is_never_matched ["testcase_root"] "y" [] testcase_root_fs
           _ (snd (tree_phase ["testcase_root"] "y"
                     (World testcase_root_fs [] [])))).
  apply surjective_pairing.
Defined.

(** ** C1: which files of a matched directory are deleted *)

Lemma run_returned (top work : path) (ans : string) (rest : list string)
    (f : filesystem) (w' : world) :
  run top work (ans :: rest) f = (w', Val tt) ->
  exists w1,
    tree_phase top ans (World f rest [ReadLine prompt]) = (w1, Val tt) /\
    work_phase work w1 = (w', Val tt).
Proof.
  rewrite script_answered. unfold bind. fold prompt.
  destruct (tree_phase top ans (World f rest [ReadLine prompt]))
    as [w1 [[]|e|]]; try discriminate.
  intros H. exists w1. auto.
Qed.

Lemma pruned_file_gone (f' f : filesystem) (p : path) :
  pruned f' f -> is_file f p = true -> is_file f' p = false ->
  lookup f' p = None.
Proof.
  intros H Hf Hf'. unfold is_file in *.
  destruct (pruned_lookup _ _ H p) as [E|E]; auto.
  rewrite E in Hf'. rewrite Hf' in Hf. discriminate.
Qed.

Lemma pruned_gone (f' f : filesystem) (p : path) :
  pruned f' f -> lookup f p = None -> lookup f' p = None.
Proof.
  intros H Hf. destruct (pruned_lookup _ _ H p) as [E|E]; congruence.
Qed.

(** C1, as stated, fails: [log_a] and [log_b] are regular files of the
    matched directory [../data/testcase1] and their names start with
    [log_], yet the run leaves both in place, because [os.remove] fails on
    [log_a] and the exception ends the run. *)
Lemma matched_file_deleted_iff_rule_counterexample :
  let f := locked_log_fs in
  let d := [".."; "data"; "testcase1"] in
  let w' := fst (run main_folder work_dir ["n"] f) in
  matched f main_folder main_folder "testcase1" /\
  is_file f (os_path_join d "log_b") = true /\
  ~ (lookup (fs w') (os_path_join d "log_b") = None <->
     deletion_rule "n" "log_b" = true).
Proof.
  split; [|split].
  - exists []. repeat split.
  - reflexivity.
  - intros [_ H]. specialize (H eq_refl). discriminate H.
Qed.

(** A file the rule in force selects is gone when the run returns. *)
Lemma selected_file_gone (top work : path) (ans : string)
    (rest : list string) (f : filesystem) (w' : world) (dp : path)
    (dn n : string) :
  run top work (ans :: rest) f = (w', Val tt) ->
  matched f top dp dn ->
  is_file f (os_path_join (os_path_join dp dn) n) = true ->
  deletion_rule ans n = true ->
  lookup (fs w') (os_path_join (os_path_join dp dn) n) = None.
Proof.
  intros H Hm Hf Hr. apply run_returned in H. destruct H as [w1 [Ht Hw]].
  destruct (tree_phase_done _ _ _ _ Ht dp dn Hm) as [_ Hc].
  apply (pruned_gone _ (fs w1)).
  - apply after_pruned. eapply does_after;
      [apply does_work_phase_seg | exact Hw].
  - apply (pruned_file_gone _ f); auto.
    apply (after_pruned _ _ (tree_phase_after _ _ _ _ _ Ht)).
Qed.

(** In a run of the script as configured, a file of a matched directory
    that is gone was selected by the rule in force: the work phase cannot
    have removed it, the work directory not being named [testcase*]. *)
Lemma gone_file_selected (ans : string) (rest : list string)
    (f : filesystem) (w' : world) (r : outcome unit) (dp : path)
    (dn n : string) :
  run main_folder work_dir (ans :: rest) f = (w', r) ->
  fnmatch "testcase*" dn = true ->
  lookup (fs w') (os_path_join (os_path_join dp dn) n) <>
  lookup f (os_path_join (os_path_join dp dn) n) ->
  deletion_rule ans n = true.
Proof.
  rewrite script_answered. unfold bind. fold prompt.
  intros H Hfn Hgone.
  set (p := os_path_join (os_path_join dp dn) n) in *.
  destruct (tree_phase main_folder ans (World f rest [ReadLine prompt]))
    as [w1 r1] eqn:Ht.
  destruct (does_tree_phase main_folder ans _ _ _ Ht) as [tr1 [He1 Hs1]].
  assert (H1 : lookup (fs w1) p <> lookup f p -> deletion_rule ans n = true).
  { intros Hd. destruct (effect_lookup _ _ _ p He1) as [[Hin _]|[_ Hl1]].
    - apply (tree_removed_target _ _ _ _ Hs1), target_shape in Hin. tauto.
    - cbn [fs] in Hl1. contradiction. }
  destruct r1 as [[]|e|]; try (inversion H; subst; auto; fail).
  destruct (does_work_phase_seg work_dir _ _ _ H) as [tr2 [He2 Hs2]].
  destruct (effect_lookup _ _ _ p He2) as [[Hin _]|[_ Hl2]].
  - apply (work_removed_child _ _ _ Hs2) in Hin. destruct Hin as [n' E].
    apply join_inj in E. destruct E as [E _].
    change work_dir with (os_path_join main_folder "work") in E.
    apply join_inj in E. destruct E as [_ ->]. discriminate Hfn.
  - apply H1. congruence.
Qed.

(** C1, amended.  When the run returns normally, a regular file of a
    matched directory is gone afterwards if and only if its name satisfies
    the rule in force: the primary rule, or also the secondary rule when
    the answer was [y]; a file the rule does not select is left as it
    was. *)
Theorem matched_file_deleted_iff_rule (ans : string) (rest : list string)
    (f : filesystem) (w' : world) (dp : path) (dn n : string) :
  run main_folder work_dir (ans :: rest) f = (w', Val tt) ->
  matched f main_folder dp dn ->
  is_file f (os_path_join (os_path_join dp dn) n) = true ->
  (lookup (fs w') (os_path_join (os_path_join dp dn) n) = None <->
   deletion_rule ans n = true) /\
  (deletion_rule ans n = false ->
   lookup (fs w') (os_path_join (os_path_join dp dn) n) =
   lookup f (os_path_join (os_path_join dp dn) n)).
Proof.
  intros H Hm Hf.
  assert (Hfn : fnmatch "testcase*" dn = true)
    by (destruct Hm as [q [_ [_ [_ Hfn]]]]; exact Hfn).
  set (p := os_path_join (os_path_join dp dn) n) in *.
  split; [split|].
  - intros Hgone. apply (gone_file_selected _ _ _ _ _ dp dn n H Hfn).
    fold p. rewrite Hgone. unfold is_file in Hf.
    destruct (lookup f p); [discriminate | discriminate Hf].
  - apply (selected_file_gone _ _ _ _ _ _ _ _ _ H Hm Hf).
  - intros Hr.
    destruct (lookup_result_dec (lookup (fs w') p) (lookup f p)) as [E|E]; auto.
    apply (gone_file_selected _ _ _ _ _ dp dn n H Hfn) in E. congruence.
Qed.

Lemma matched_file_deleted_iff_rule_witness :
  (lookup (fs (fst (run main_folder work_dir ["y"] sample_fs)))
          (os_path_join (os_path_join main_folder "testcase1") "input_a.csv")
     = None <->
   deletion_rule "y" "input_a.csv" = true) /\
  (deletion_rule "y" "input_a.csv" = false ->
   lookup (fs (fst (run main_folder work_dir ["y"] sample_fs)))
          (os_path_join (os_path_join main_folder "testcase1") "input_a.csv")
   = lookup sample_fs
       (os_path_join (os_path_join main_folder "testcase1") "input_a.csv")).
Proof.
  apply (matched_file_deleted_iff_rule "y" [] sample_fs
           (fst (run main_folder work_dir ["y"] sample_fs))
           main_folder "testcase1" "input_a.csv").
  - reflexivity.
  - exists []. repeat split.
  - reflexivity.
Defined.

(** ** The work-directory loop *)

Lemma work_loop (dir : path) (names : list string) :
  forall w, exists w',
    for_each names (work_entry dir) w = (w', Val tt) /\
    (forall q,
       (lookup (fs w') q = None /\ work_victim dir names (fs w) q) \/
       (lookup (fs w') q = lookup (fs w) q /\
        ~ work_victim dir names (fs w) q)) /\
    (forall n, In n names ->
       lookup (fs w) (os_path_join dir n) = Some (KFile false) ->
       In (Printed (failed_line (os_path_join dir n)
                      (PermissionError (os_path_join dir n)))) (trace w')).
Proof.
  induction names as [|x names IH]; intros w.
  - exists w. split; [reflexivity|]. split.
    + intros q. right. split; auto. intros [n [[] _]].
    + intros n [].
  - set (p := os_path_join dir x).
    assert (Hstep : exists w1,
      work_entry dir x w = (w1, Val tt) /\
      ((fs w1 = fs w /\ lookup (fs w) p <> Some (KFile true)) \/
       (fs w1 = unlink p (fs w) /\ lookup (fs w) p = Some (KFile true))) /\
      (forall e, In e (trace w) -> In e (trace w1)) /\
      (lookup (fs w) p = Some (KFile false) ->
       In (Printed (failed_line p (PermissionError p))) (trace w1))).
    { destruct (work_entry_cases dir x w) as [[Hf E]|[[El E]|[El E]]];
        fold p in Hf || fold p in El; fold p in E; rewrite E;
        eexists; (split; [reflexivity|]); cbn [fs trace].
      - split; [left; split; auto|split; auto].
        + unfold is_file in Hf. intros Hl; rewrite Hl in Hf; discriminate.
        + intros Hl. unfold is_file in Hf. rewrite Hl in Hf. discriminate.
      - split; [right; auto|split].
        + intros e He. apply in_or_app; auto.
        + congruence.
      - split; [left; split; auto; congruence|split].
        + intros e He. apply in_or_app; auto.
        + intros _. apply in_or_app; right; left; reflexivity. }
    destruct Hstep as [w1 [E1 [Hfs [Htr Hfail]]]].
    destruct (IH w1) as [w' [E' [Hq Hn]]].
    assert (Hmono : forall e, In e (trace w1) -> In e (trace w')).
    { intros e. apply after_trace. eapply for_each_after; [|exact E'].
      intros n. apply does_work_entry; unfold any_trace;
        auto using any_trace_modular. }
    exists w'. split; [simpl; unfold bind; rewrite E1; exact E'|]. split.
    + intros q. destruct Hfs as [[Hsame Hnot]|[Hun Hyes]].
      * rewrite Hsame in Hq.
        destruct (Hq q) as [[Hg [n [Hin [-> Hl]]]]|[Hk Hv]].
        -- left. split; auto. exists n. simpl; auto.
        -- right. split; auto. intros [n [[<-|Hin] [-> Hl]]].
           ++ apply Hnot; exact Hl.
           ++ apply Hv. exists n; auto.
      * rewrite Hun in Hq.
        destruct (path_dec q p) as [->|Hne].
        -- left. split.
           ++ destruct (Hq p) as [[Hg _]|[Hk _]]; auto.
              rewrite Hk. apply lookup_unlink_same.
           ++ exists x. simpl; auto.
        -- destruct (Hq q) as [[Hg [n [Hin [Eq Hl]]]]|[Hk Hv]].
           ++ left. split; auto. exists n.
              rewrite lookup_unlink_other in Hl by exact Hne.
              simpl; auto.
           ++ right. rewrite lookup_unlink_other in Hk by exact Hne.
              split; auto. intros [n [[<-|Hin] [Eq Hl]]].
              ** apply Hne; exact Eq.
              ** apply Hv. exists n.
                 rewrite lookup_unlink_other by exact Hne. auto.
    + intros n [<-|Hin] Hl.
      * apply Hmono, Hfail, Hl.
      * apply Hn; auto.
        destruct Hfs as [[-> _]|[-> Hyes]]; auto.
        rewrite lookup_unlink_other; auto.
        intros E. fold p in Hyes. rewrite E in Hl. congruence.
Qed.

(** The work phase on an existing directory: it always returns, removes
    exactly the regular files directly inside that it can remove, and
    reports each one it cannot. *)
Lemma work_phase_dir (dir : path) (w : world) :
  is_dir (fs w) dir = true ->
  exists w',
    work_phase dir w = (w', Val tt) /\
    (forall n, lookup (fs w) (os_path_join dir n) = Some (KFile true) ->
               lookup (fs w') (os_path_join dir n) = None) /\
    (forall q, (forall n, q = os_path_join dir n ->
                          lookup (fs w) q <> Some (KFile true)) ->
               lookup (fs w') q = lookup (fs w) q) /\
    (forall n, lookup (fs w) (os_path_join dir n) = Some (KFile false) ->
       In (Printed (failed_line (os_path_join dir n)
                      (PermissionError (os_path_join dir n)))) (trace w')).
Proof.
  intros Hd.
  assert (El : lookup (fs w) dir = Some KDir).
  { unfold is_dir in Hd.
    destruct (lookup (fs w) dir) as [[| |]|]; try discriminate; reflexivity. }
  assert (Eu : forall w', for_each (names_in (fs w) dir) (work_entry dir) w
                          = (w', Val tt) ->
                          work_phase dir w = (w', Val tt)).
  { intros w' E.
    unfold work_phase, bind, os_path_exists, os_listdir, present.
    rewrite El. cbv beta iota. rewrite El. exact E. }
  destruct (work_loop dir (names_in (fs w) dir) w) as [w' [E [Hq Hn]]].
  assert (Hin : forall n k, lookup (fs w) (os_path_join dir n) = Some k ->
                            In n (names_in (fs w) dir)).
  { intros n k Hl. apply names_in_present. unfold present.
    rewrite Hl; reflexivity. }
  exists w'. split; [apply Eu; exact E|]. split; [|split].
  - intros n Hl. destruct (Hq (os_path_join dir n)) as [[Hg _]|[_ Hv]]; auto.
    exfalso. apply Hv. exists n. eauto.
  - intros q Hne. destruct (Hq q) as [[_ [n [_ [Hp Hl]]]]|[Hk _]]; auto.
    exfalso. eapply Hne; eauto.
  - intros n Hl. eapply Hn; eauto.
Qed.

(** ** C2: the work directory *)

(** C2, as stated, fails: [../data/work/locked] is a regular file directly
    in the work directory, and it is still there after the work phase,
    because [os.remove] fails on it and the failure is only reported. *)
Lemma work_entry_deleted_iff_regular_counterexample :
  let p := os_path_join work_dir "locked" in
  let w' := fst (work_phase work_dir (World sample_fs [] [])) in
  is_dir sample_fs work_dir = true /\
  ~ (lookup (fs w') p = None <-> is_file sample_fs p = true).
Proof.
  split; [reflexivity|].
  intros [_ H]. specialize (H eq_refl). discriminate H.
Qed.

(** C2, amended.  When the work directory exists as a directory, the work
    phase returns normally and an entry directly inside it is deleted if
    and only if it is a regular file that [os.remove] accepts, whatever
    its name; sub-directories stay, nothing below them is touched, and
    no path outside the work directory changes. *)
Theorem work_dir_loses_removable_files (work : path) (w w' : world)
    (r : outcome unit) :
  is_dir (fs w) work = true ->
  work_phase work w = (w', r) ->
  r = Val tt /\
  (forall n, present (fs w) (os_path_join work n) = true ->
     (lookup (fs w') (os_path_join work n) = None <->
      lookup (fs w) (os_path_join work n) = Some (KFile true))) /\
  (forall n, is_dir (fs w) (os_path_join work n) = true ->
     is_dir (fs w') (os_path_join work n) = true /\
     forall m q, lookup (fs w') (os_path_join work n ++ m :: q) =
                 lookup (fs w) (os_path_join work n ++ m :: q)) /\
  (forall q, (forall n, q <> os_path_join work n) ->
     lookup (fs w') q = lookup (fs w) q).
Proof.
  intros Hd H.
  destruct (work_phase_dir work w Hd) as [w2 [E [Hgone [Hkeep _]]]].
  rewrite E in H. inversion H; subst w2 r; clear H.
  split; [reflexivity|]. split; [|split].
  - intros n Hp. split; [|apply Hgone].
    intros Hn.
    destruct (lookup (fs w) (os_path_join work n)) as [[[|]| |]|] eqn:El;
      auto; exfalso.
    + rewrite Hkeep in Hn; [congruence|].
      intros n' E'. congruence.
    + rewrite Hkeep in Hn; [congruence|].
      intros n' E'. congruence.
    + rewrite Hkeep in Hn; [congruence|].
      intros n' E'. congruence.
    + unfold present in Hp. rewrite El in Hp. discriminate.
  - intros n Hn. split.
    + unfold is_dir in *. rewrite Hkeep; auto.
      intros n' E' Hl. rewrite Hl in Hn. discriminate.
    + intros m q. apply Hkeep. intros n' E'.
      apply (f_equal (@List.length string)) in E'.
      unfold os_path_join in E'. rewrite !length_app in E'.
      simpl in E'. lia.
  - intros q Hq. apply Hkeep. intros n E'. destruct (Hq n E').
Qed.

Lemma work_dir_loses_removable_files_witness :
  let w := World sample_fs [] [] in
  let w' := fst (work_phase work_dir w) in
  snd (work_phase work_dir w) = Val tt /\
  (forall n, present (fs w) (os_path_join work_dir n) = true ->
     (lookup (fs w') (os_path_join work_dir n) = None <->
      lookup (fs w) (os_path_join work_dir n) = Some (KFile true))) /\
  (forall n, is_dir (fs w) (os_path_join work_dir n) = true ->
     is_dir (fs w') (os_path_join work_dir n) = true /\
     forall m q, lookup (fs w') (os_path_join work_dir n ++ m :: q) =
                 lookup (fs w) (os_path_join work_dir n ++ m :: q)) /\
  (forall q, (forall n, q <> os_path_join work_dir n) ->
     lookup (fs w') q = lookup (fs w) q).
Proof.
  apply (work_dir_loses_removable_files work_dir (World sample_fs [] [])).
  - reflexivity.
  - apply surjective_pairing.
Defined.

(** ** C3: guarded and unguarded deletions *)

Lemma effect_keeps_locked (w w' : world) (tr : list event) (p : path) :
  effect w w' tr -> lookup (fs w) p = Some (KFile false) ->
  lookup (fs w') p = Some (KFile false).
Proof.
  intros He Hl. destruct (effect_lookup _ _ _ p He) as [[Hin _]|[_ E]].
  - apply removed_paths_in, (eff_removable _ _ _ He) in Hin.
    unfold removable in Hin. rewrite Hl in Hin. discriminate.
  - congruence.
Qed.

(** C3.  In the work phase a failing [os.remove] is caught: the phase
    always returns normally, every file it could not remove has its
    [Failed to delete ... Reason: ...] line, and every file it could remove
    is gone, wherever the failing ones sit in the listing.  In the tree
    phase the exception is not caught: the run ends with that exception in
    the very world where it was raised, whose last event is the
    [Deleting file:] line of the file that could not be removed, so
    nothing is processed after it.  And the exception does occur: a
    matched directory holding a file the rule selects and [os.remove]
    refuses makes the tree phase raise [PermissionError]. *)
Theorem failures_caught_in_work_phase_only :
  (forall work w, is_dir (fs w) work = true ->
     exists w', work_phase work w = (w', Val tt) /\
       (forall n, lookup (fs w) (os_path_join work n) = Some (KFile false) ->
          In (Printed (failed_line (os_path_join work n)
                         (PermissionError (os_path_join work n))))
             (trace w')) /\
       (forall n, lookup (fs w) (os_path_join work n) = Some (KFile true) ->
          lookup (fs w') (os_path_join work n) = None)) /\
  (forall top work ans rest f w1 e,
     tree_phase top ans (World f rest [ReadLine prompt]) = (w1, Raised e) ->
     run top work (ans :: rest) f = (w1, Raised e) /\
     exists p tr, e = PermissionError p /\ target ans top p /\
       lookup (fs w1) p = Some (KFile false) /\
       trace w1 = tr ++ [Printed (deleting_line p)]) /\
  (forall top ans w dp dn n,
     matched (fs w) top dp dn ->
     lookup (fs w) (os_path_join (os_path_join dp dn) n) = Some (KFile false) ->
     deletion_rule ans n = true ->
     exists w1 p, tree_phase top ans w = (w1, Raised (PermissionError p))).
Proof.
  split; [|split].
  - intros work w Hd.
    destruct (work_phase_dir work w Hd) as [w' [E [Hgone [_ Hfail]]]].
    exists w'. auto.
  - intros top work ans rest f w1 e H. split.
    + rewrite script_answered. unfold bind. fold prompt. rewrite H.
      reflexivity.
    + apply tree_phase_raised in H. exact H.
  - intros top ans w dp dn n Hm Hl Hr.
    destruct (tree_phase top ans w) as [w1 [[]|e|]] eqn:E.
    + exfalso.
      destruct (tree_phase_done _ _ _ _ E dp dn Hm) as [_ Hc].
      specialize (Hc n Hr).
      destruct (does_tree_phase top ans _ _ _ E) as [tr [He _]].
      apply (effect_keeps_locked _ _ _ _ He) in Hl.
      unfold is_file in Hc. rewrite Hl in Hc. discriminate.
    + destruct (tree_phase_raised _ _ _ _ _ E) as [p [_ [-> _]]]. eauto.
    + exfalso. eapply tree_phase_fuel; eauto.
Qed.

Lemma failures_caught_in_work_phase_only_witness :
  (exists w', work_phase work_dir (World sample_fs [] []) = (w', Val tt) /\
     In (Printed "Failed to delete file '../data/work/locked'. Reason: [Errno 13] Permission denied: '../data/work/locked'")
        (trace w') /\
     lookup (fs w') (os_path_join work_dir "b.o") = None) /\
  (exists w1 p, run main_folder work_dir ["n"] locked_log_fs =
                (w1, Raised (PermissionError p)) /\
                lookup (fs w1) (os_path_join
                   (os_path_join main_folder "testcase1") "log_b")
                = Some (KFile true)).
Proof.
  destruct failures_caught_in_work_phase_only as [Hw [Ht Hx]]. split.
  - destruct (Hw work_dir (World sample_fs [] []) eq_refl)
      as [w' [E [Hf Hg]]].
    exists w'. split; [exact E|]. split.
    + apply (Hf "locked"). reflexivity.
    + apply (Hg "b.o"). reflexivity.
  - destruct (Hx main_folder "n" (World locked_log_fs [] [ReadLine prompt])
                main_folder "testcase1" "log_a") as [w1 [p E]].
    + exists []. repeat split.
    + reflexivity.
    + reflexivity.
    + exists w1, p. destruct (Ht main_folder work_dir "n" [] locked_log_fs
                                w1 (PermissionError p) E) as [Hr _].
      split; [exact Hr|].
      assert (Hw1 : w1 = fst (run main_folder work_dir ["n"] locked_log_fs))
        by (rewrite Hr; reflexivity).
      rewrite Hw1. reflexivity.
Defined.

(** ** C4: the prompt *)

(** The trace of an answered run: the prompt, then the tree phase, then
    the work phase (empty when the tree phase raised). *)
Lemma run_trace (top work : path) (ans : string) (rest : list string)
    (f : filesystem) (w' : world) (r : outcome unit) :
  run top work (ans :: rest) f = (w', r) ->
  exists tr1 tr2,
    trace w' = ReadLine prompt :: tr1 ++ tr2 /\
    stdin w' = rest /\
    star (tree_seg ans top) tr1 /\ star (work_seg work) tr2 /\
    effect (World f rest [ReadLine prompt]) w' (tr1 ++ tr2).
Proof.
  rewrite script_answered. unfold bind. fold prompt. intros H.
  destruct (tree_phase top ans (World f rest [ReadLine prompt]))
    as [w1 r1] eqn:Ht.
  destruct (does_tree_phase top ans _ _ _ Ht) as [tr1 [He1 Hs1]].
  assert (Hstop : w' = w1 ->
    exists tr1 tr2,
      trace w' = ReadLine prompt :: tr1 ++ tr2 /\ stdin w' = rest /\
      star (tree_seg ans top) tr1 /\ star (work_seg work) tr2 /\
      effect (World f rest [ReadLine prompt]) w' (tr1 ++ tr2)).
  { intros ->. exists tr1, []. rewrite app_nil_r.
    repeat split; auto using star_nil;
      try (apply (eff_trace _ _ _ He1)); try (apply (eff_stdin _ _ _ He1));
      try (apply (eff_fs _ _ _ He1)); try (apply (eff_removable _ _ _ He1)). }
  destruct r1 as [[]|e|]; try (inversion H; subst; auto; fail).
  destruct (does_work_phase_seg work _ _ _ H) as [tr2 [He2 Hs2]].
  pose proof (effect_app _ _ _ _ _ He1 He2) as He.
  exists tr1, tr2. repeat split; auto;
    try (apply (eff_trace _ _ _ He)); try (apply (eff_stdin _ _ _ He));
    try (apply (eff_fs _ _ _ He)); try (apply (eff_removable _ _ _ He)).
Qed.

Lemma tree_seg_no_read (ans : string) (top : path) (tr : list event)
    (pr : string) :
  star (tree_seg ans top) tr -> ~ In (ReadLine pr) tr.
Proof.
  induction 1 as [|s tr Hs Ht IH]; simpl; [tauto|].
  rewrite in_app_iff. intros [Hin|Hin]; auto.
  destruct Hs; simpl in Hin; intuition discriminate.
Qed.

Lemma work_seg_no_read (dir : path) (tr : list event) (pr : string) :
  star (work_seg dir) tr -> ~ In (ReadLine pr) tr.
Proof.
  induction 1 as [|s tr Hs Ht IH]; simpl; [tauto|].
  rewrite in_app_iff. intros [Hin|Hin]; auto.
  destruct Hs; simpl in Hin; intuition discriminate.
Qed.

(** Any answer other than [y] is the answer [n]. *)
Lemma other_answers_are_no (top work : path) (ans : string)
    (rest : list string) (f : filesystem) :
  ans <> "y" ->
  run top work (ans :: rest) f = run top work ("n" :: rest) f.
Proof.
  intros Hans. apply String.eqb_neq in Hans.
  rewrite !script_answered. unfold bind.
  rewrite !tree_phase_tasks.
  rewrite (for_each_ext _ (proc ans) (proc "n")); [reflexivity|].
  intros [dp dn] w1 _. unfold proc. rewrite !process_matched_unfold.
  rewrite Hans. reflexivity.
Qed.

(** C4.  A run reads one line, before anything else: the first event is
    the prompt, no later event is a read, and the rest of the standard
    input is left.  Any answer other than the single character [y] gives
    the very run the answer [n] gives.  And when the run returns, a regular
    file of a matched directory that only the secondary rule selects is
    deleted if and only if the answer was [y]. *)
Theorem prompt_answer_decides_secondary (ans : string) (rest : list string)
    (f : filesystem) (w' : world) (r : outcome unit) :
  run main_folder work_dir (ans :: rest) f = (w', r) ->
  (stdin w' = rest /\
   exists tr, trace w' = ReadLine prompt :: tr /\
              forall pr, ~ In (ReadLine pr) tr) /\
  (ans <> "y" ->
   run main_folder work_dir (ans :: rest) f =
   run main_folder work_dir ("n" :: rest) f) /\
  (r = Val tt ->
   forall dp dn n,
     matched f main_folder dp dn ->
     is_file f (os_path_join (os_path_join dp dn) n) = true ->
     secondary_rule n = true -> primary_rule n = false ->
     (lookup (fs w') (os_path_join (os_path_join dp dn) n) = None <->
      ans = "y")).
Proof.
  intros H. split; [|split].
  - destruct (run_trace _ _ _ _ _ _ _ H) as [tr1 [tr2 [Ht [Hs [H1 [H2 _]]]]]].
    split; [exact Hs|]. exists (tr1 ++ tr2). split; [exact Ht|].
    intros pr Hin. apply in_app_or in Hin. destruct Hin as [Hin|Hin].
    + eapply tree_seg_no_read; eauto.
    + eapply work_seg_no_read; eauto.
  - apply other_answers_are_no.
  - intros -> dp dn n Hm Hf Hsec Hprim.
    assert (Hfn : fnmatch "testcase*" dn = true)
      by (destruct Hm as [q [_ [_ [_ Hfn]]]]; exact Hfn).
    assert (Hrule : deletion_rule ans n = true <-> ans = "y").
    { unfold deletion_rule. rewrite Hprim, Hsec, andb_true_r. simpl.
      apply String.eqb_eq. }
    rewrite <- Hrule. split.
    + intros Hgone. apply (gone_file_selected _ _ _ _ _ dp dn n H Hfn).
      rewrite Hgone. unfold is_file in Hf.
      destruct (lookup f (os_path_join (os_path_join dp dn) n));
        [discriminate | discriminate Hf].
    + apply (selected_file_gone _ _ _ _ _ _ _ _ _ H Hm Hf).
Qed.

Lemma prompt_answer_decides_secondary_witness :
  let w' := fst (run main_folder work_dir ["yes"; "y"] sample_fs) in
  (stdin w' = ["y"] /\
   exists tr, trace w' = ReadLine prompt :: tr /\
              forall pr, ~ In (ReadLine pr) tr) /\
  ("yes" <> "y" ->
   run main_folder work_dir ["yes"; "y"] sample_fs =
   run main_folder work_dir ["n"; "y"] sample_fs) /\
  (snd (run main_folder work_dir ["yes"; "y"] sample_fs) = Val tt ->
   forall dp dn n,
     matched sample_fs main_folder dp dn ->
     is_file sample_fs (os_path_join (os_path_join dp dn) n) = true ->
     secondary_rule n = true -> primary_rule n = false ->
     (lookup (fs w') (os_path_join (os_path_join dp dn) n) = None <->
      "yes" = "y")).
Proof.
  apply (prompt_answer_decides_secondary "yes" ["y"] sample_fs).
  apply surjective_pairing.
Defined.

(** ** Running again *)

Lemma quiet_seq (m1 m2 : M unit) (w : world) (r : outcome unit) :
  quiet m1 w (Val tt) ->
  (forall w', fs w' = fs w -> quiet m2 w' r) ->
  quiet (m1 ;; m2) w r.
Proof.
  intros [tr1 [R1 E1]] H2.
  destruct (H2 (World (fs w) (stdin w) (trace w ++ tr1)) eq_refl)
    as [tr2 [R2 E2]].
  exists (tr1 ++ tr2). split.
  - rewrite removed_paths_app, R1, R2. reflexivity.
  - unfold bind. rewrite E1, E2. cbn [fs stdin trace].
    rewrite app_assoc. reflexivity.
Qed.

Lemma quiet_raise (m1 m2 : M unit) (w : world) (e : exn) :
  quiet m1 w (Raised e) -> quiet (m1 ;; m2) w (Raised e).
Proof.
  intros [tr1 [R1 E1]]. exists tr1. split; auto.
  unfold bind. rewrite E1. reflexivity.
Qed.

Lemma quiet_ret (w : world) : quiet (ret tt) w (Val tt).
Proof.
  exists []. split; auto. rewrite app_nil_r. destruct w; reflexivity.
Qed.

Lemma idem_ret : idem (ret tt).
Proof.
  intros w w' r H. inversion H; subst. intros w2 _. apply quiet_ret.
Qed.

Lemma idem_print (line : string) : idem (print line).
Proof.
  intros w w' r H. inversion H; subst. intros w2 _.
  exists [Printed line]. split; reflexivity.
Qed.

Lemma idem_seq (m1 m2 : M unit) :
  does any_trace m2 -> idem m1 -> idem m2 -> idem (m1 ;; m2).
Proof.
  intros D2 I1 I2 w w' r H. unfold bind in H.
  destruct (m1 w) as [w1 [[]|e|]] eqn:E1.
  - pose proof (I1 _ _ _ E1) as S1. pose proof (I2 _ _ _ H) as S2.
    pose proof (does_pruned _ _ _ _ _ D2 H) as Hp.
    destruct r as [[]|e|]; simpl in *; auto.
    + intros w2 Hw2. apply quiet_seq.
      * apply S1. apply pruned_trans with (fs w'); auto.
      * intros w3 E3. apply S2. rewrite E3. exact Hw2.
    + intros w2 Hw2. apply quiet_seq.
      * apply S1. rewrite Hw2. exact Hp.
      * intros w3 E3. apply S2. congruence.
  - inversion H; subst. pose proof (I1 _ _ _ E1) as S1. simpl in *.
    intros w2 Hw2. apply quiet_raise. apply S1; exact Hw2.
  - inversion H; subst. apply (I1 _ _ _ E1).
Qed.

Lemma idem_for_each {A} (xs : list A) (body : A -> M unit) :
  (forall x, does any_trace (body x)) ->
  (forall x, In x xs -> idem (body x)) ->
  idem (for_each xs body).
Proof.
  intros D. induction xs as [|x xs IH]; intros I; simpl.
  - apply idem_ret.
  - apply idem_seq.
    + apply does_for_each; auto using any_trace_modular.
    + apply I. left; reflexivity.
    + apply IH. intros y Hy. apply I. right; exact Hy.
Qed.

Lemma idem_if (b : bool) (m1 m2 : M unit) :
  idem m1 -> idem m2 -> idem (if b then m1 else m2).
Proof. destruct b; auto. Qed.

Lemma sweep_quiet (rule : string -> bool) (d : path) (names : list string)
    (w : world) :
  (forall n, In n names ->
             is_file (fs w) (os_path_join d n) && rule n = false) ->
  for_each names (delete_entry rule d) w = (w, Val tt).
Proof.
  induction names as [|n names IH]; intros H; simpl; [reflexivity|].
  unfold bind.
  destruct (delete_entry_cases rule d n w) as [[_ E]|[[Hr [El _]]|[Hr [El _]]]].
  - rewrite E. apply IH. intros m Hm. apply H. right; exact Hm.
  - specialize (H n (or_introl eq_refl)). unfold is_file in H.
    rewrite El, Hr in H. discriminate.
  - specialize (H n (or_introl eq_refl)). unfold is_file in H.
    rewrite El, Hr in H. discriminate.
Qed.

(** A sweep that raised raises again, at the same file, when it is run
    on what is left of the listing. *)
Lemma sweep_again (rule : string -> bool) (d : path) (names : list string) :
  forall w w' e,
    for_each names (delete_entry rule d) w = (w', Raised e) ->
    forall w2, fs w2 = fs w' ->
      exists line,
        for_each (filter (fun n => present (fs w') (os_path_join d n)) names)
                 (delete_entry rule d) w2 =
        (World (fs w2) (stdin w2) (trace w2 ++ [Printed line]), Raised e).
Proof.
  induction names as [|n names IH]; intros w w' e H w2 Hw2;
    [discriminate H|].
  simpl in H. unfold bind in H.
  pose proof (for_each_after _ (does_delete_entry_any rule d)) as Hafter.
  destruct (delete_entry_cases rule d n w)
    as [[Hf E]|[[Hr [El E]]|[Hr [El E]]]]; rewrite E in H.
  - (* [n] was skipped: it is skipped again, if it is still listed *)
    pose proof (after_pruned _ _ (Hafter _ _ _ _ H)) as Hp.
    destruct (IH _ _ _ H w2 Hw2) as [line Hl].
    exists line. simpl.
    destruct (present (fs w') (os_path_join d n)) eqn:Epr; [|exact Hl].
    simpl. unfold bind.
    destruct (delete_entry_cases rule d n w2)
      as [[_ E2]|[[Hr2 [El2 _]]|[Hr2 [El2 _]]]].
    + rewrite E2. exact Hl.
    + exfalso. rewrite Hw2 in El2.
      assert (Hf' : is_file (fs w') (os_path_join d n) = true)
        by (unfold is_file; rewrite El2; reflexivity).
      rewrite (pruned_is_file _ _ _ Hp Hf') in El2.
      unfold is_file in Hf. rewrite El2, Hr2 in Hf. discriminate.
    + exfalso. rewrite Hw2 in El2.
      assert (Hf' : is_file (fs w') (os_path_join d n) = true)
        by (unfold is_file; rewrite El2; reflexivity).
      rewrite (pruned_is_file _ _ _ Hp Hf') in El2.
      unfold is_file in Hf. rewrite El2, Hr2 in Hf. discriminate.
  - (* [n] was removed: it is no longer listed *)
    pose proof (after_pruned _ _ (Hafter _ _ _ _ H)) as Hp.
    cbn [fs] in Hp.
    destruct (IH _ _ _ H w2 Hw2) as [line Hl].
    exists line. simpl.
    assert (Epr : present (fs w') (os_path_join d n) = false).
    { unfold present.
      rewrite (pruned_gone _ _ _ Hp (lookup_unlink_same _ _)). reflexivity. }
    rewrite Epr. exact Hl.
  - (* [n] was refused: it is refused again *)
    inversion H; subst w' e; clear H. cbn [fs] in *.
    exists (deleting_line (os_path_join d n)). simpl.
    unfold present. rewrite El. simpl. unfold bind.
    destruct (delete_entry_cases rule d n w2)
      as [[Hf2 _]|[[_ [El2 _]]|[_ [_ E2]]]].
    + unfold is_file in Hf2. rewrite Hw2, El, Hr in Hf2. discriminate.
    + rewrite Hw2, El in El2. discriminate.
    + rewrite E2. reflexivity.
Qed.

Lemma idem_delete_where (rule : string -> bool) (d : path) :
  idem (delete_where rule d).
Proof.
  intros w w' r H.
  assert (Hun : forall w0, lookup (fs w0) d = Some KDir ->
            delete_where rule d w0 =
            for_each (names_in (fs w0) d) (delete_entry rule d) w0).
  { intros w0 El. unfold delete_where, bind, os_listdir. rewrite El.
    reflexivity. }
  destruct (lookup (fs w) d) as [k|] eqn:El;
    [destruct k as [b| |]|].
  2: { (* a directory *)
    pose proof (does_pruned _ _ _ _ _ (does_delete_where_any rule d) H) as Hp.
    assert (Hd : forall w2, pruned (fs w2) (fs w') ->
                            lookup (fs w2) d = Some KDir).
    { intros w2 Hw2.
      assert (Hdir : is_dir (fs w2) d = true).
      { rewrite (pruned_is_dir _ _ _ Hw2), (pruned_is_dir _ _ _ Hp).
        unfold is_dir. rewrite El. reflexivity. }
      unfold is_dir in Hdir.
      destruct (lookup (fs w2) d) as [[| |]|]; try discriminate; reflexivity. }
    destruct r as [[]|e|]; simpl.
    - intros w2 Hw2. exists []. split; [reflexivity|].
      rewrite (Hun _ (Hd _ Hw2)), app_nil_r.
      rewrite sweep_quiet; [destruct w2; reflexivity|].
      intros n _.
      destruct (rule n) eqn:Hr; [|apply andb_false_r].
      rewrite andb_true_r.
      apply pruned_not_file with (fs w'); auto.
      eapply delete_where_clean; eauto.
    - intros w2 Hw2.
      assert (Hw2' : pruned (fs w2) (fs w'))
        by (rewrite Hw2; apply pruned_refl).
      rewrite (Hun _ El) in H.
      destruct (sweep_again _ _ _ _ _ _ H w2 Hw2) as [line Hl].
      exists [Printed line]. split; [reflexivity|].
      assert (En : names_in (fs w2) d =
                   filter (fun n => present (fs w') (os_path_join d n))
                          (names_in (fs w) d))
        by (rewrite Hw2; apply (pruned_names _ _ Hp)).
      rewrite (Hun _ (Hd _ Hw2')), En. exact Hl.
    - eapply delete_where_fuel; eauto. }
  all: unfold delete_where, bind, os_listdir in H; rewrite El in H;
    inversion H; subst w' r; clear H; simpl;
    intros w2 Hw2; exists []; split; [reflexivity|];
    rewrite <- Hw2 in El;
    unfold delete_where, bind, os_listdir; rewrite El, app_nil_r;
    destruct w2; reflexivity.
Qed.

Lemma idem_process_matched (ans : string) (dp : path) (dn : string) :
  idem (process_matched ans dp dn).
Proof.
  unfold process_matched, delete_files_in_directory,
    delete_matlab_files_in_directory.
  apply idem_seq; [|apply idem_print|].
  - apply does_bind; auto using any_trace_modular, does_delete_where_any.
    intros _. apply does_if; auto using does_delete_where_any.
    apply does_ret, any_trace_modular.
  - apply idem_seq; [|apply idem_delete_where|].
    + apply does_if; auto using does_delete_where_any.
      apply does_ret, any_trace_modular.
    + apply idem_if; [apply idem_delete_where | apply idem_ret].
Qed.

Lemma idem_tree_phase (top : path) (ans : string) : idem (tree_phase top ans).
Proof.
  intros w w' r H.
  pose proof (after_pruned _ _ (tree_phase_after _ _ _ _ _ H)) as Hp.
  rewrite tree_phase_tasks in H.
  assert (S : settled (for_each (matched_tasks (fs w) top) (proc ans))
                      (fs w') r).
  { apply (idem_for_each _ _ (does_proc_any ans)
             (fun t _ => idem_process_matched ans (fst t) (snd t)) _ _ _ H). }
  assert (T : forall w2, pruned (fs w2) (fs w') ->
            tree_phase top ans w2 =
            for_each (matched_tasks (fs w) top) (proc ans) w2).
  { intros w2 Hw2. rewrite tree_phase_tasks.
    rewrite (matched_tasks_pruned (fs w2) (fs w)); auto.
    apply pruned_trans with (fs w'); auto. }
  destruct r as [[]|e|]; simpl in *; auto.
  - intros w2 Hw2. destruct (S w2 Hw2) as [tr [R E]].
    exists tr. split; auto. rewrite T; auto.
  - intros w2 Hw2. destruct (S w2 Hw2) as [tr [R E]].
    exists tr. split; auto. rewrite T; auto.
    rewrite Hw2. apply pruned_refl.
Qed.

(** With nothing removable left directly in [dir], the work loop only
    reports. *)
Lemma work_loop_quiet (dir : path) (names : list string) :
  forall w,
    (forall n, lookup (fs w) (os_path_join dir n) <> Some (KFile true)) ->
    quiet (for_each names (work_entry dir)) w (Val tt).
Proof.
  induction names as [|n names IH]; intros w H; simpl.
  - apply quiet_ret.
  - apply quiet_seq.
    + destruct (work_entry_cases dir n w) as [[_ E]|[[El _]|[_ E]]].
      * exists []. split; auto.
        rewrite E, app_nil_r. destruct w; reflexivity.
      * destruct (H n El).
      * eexists. split; [|exact E]. reflexivity.
    + intros w' Hw'. apply IH. rewrite Hw'. exact H.
Qed.

Lemma idem_work_phase (work : path) : idem (work_phase work).
Proof.
  intros w w' r H.
  assert (Hun : forall w0, lookup (fs w0) work = Some KDir ->
            work_phase work w0 =
            for_each (names_in (fs w0) work) (work_entry work) w0).
  { intros w0 El. unfold work_phase, bind, os_path_exists, os_listdir, present.
    rewrite El. cbv beta iota. rewrite El. reflexivity. }
  destruct (lookup (fs w) work) as [k|] eqn:El; [destruct k as [b| |]|].
  2: { (* the work directory is a directory *)
    assert (Hd : is_dir (fs w) work = true)
      by (unfold is_dir; rewrite El; reflexivity).
    destruct (work_phase_dir work w Hd) as [w2 [E [Hgone [Hkeep _]]]].
    rewrite E in H. inversion H; subst w2 r; clear H. simpl.
    pose proof (does_pruned _ _ _ _ _ (does_work_phase_seg work) E) as Hp.
    intros w2 Hw2.
    assert (El2 : lookup (fs w2) work = Some KDir).
    { assert (Hdir : is_dir (fs w2) work = true)
        by (rewrite (pruned_is_dir _ _ _ Hw2), (pruned_is_dir _ _ _ Hp); auto).
      unfold is_dir in Hdir.
      destruct (lookup (fs w2) work) as [[| |]|]; try discriminate;
        reflexivity. }
    destruct (work_loop_quiet work (names_in (fs w2) work) w2) as [tr [R Eq]].
    - intros n Hl.
      assert (Hl' : lookup (fs w') (os_path_join work n) = Some (KFile true)).
      { destruct (pruned_lookup _ _ Hw2 (os_path_join work n)); congruence. }
      destruct (lookup (fs w) (os_path_join work n)) as [[[|]| |]|] eqn:Ew;
        try (rewrite Hkeep in Hl'; [congruence | intros; congruence]).
      rewrite (Hgone n Ew) in Hl'. discriminate.
    - exists tr. split; auto. rewrite (Hun _ El2). exact Eq. }
  1,2: unfold work_phase, bind, os_path_exists, os_listdir, present in H;
    rewrite El in H; cbv beta iota in H; rewrite El in H;
    inversion H; subst w' r; clear H; simpl;
    intros w2 Hw2; exists []; split; [reflexivity|];
    rewrite <- Hw2 in El;
    unfold work_phase, bind, os_path_exists, os_listdir, present;
    rewrite El; cbv beta iota; rewrite El, app_nil_r;
    destruct w2; reflexivity.
  (* the work directory does not exist *)
  rewrite (work_phase_missing _ _ El) in H.
  inversion H; subst w' r; clear H. simpl.
  intros w2 Hw2. eexists. split; [|apply work_phase_missing].
  - reflexivity.
  - apply (pruned_gone _ _ _ Hw2 El).
Qed.

Lemma work_phase_leaves_none (work : path) (w w' : world) (r : outcome unit) :
  is_dir (fs w) work = true ->
  work_phase work w = (w', r) ->
  forall n, lookup (fs w') (os_path_join work n) <> Some (KFile true).
Proof.
  intros Hd H n Hl.
  destruct (work_phase_dir work w Hd) as [w2 [E [Hgone [Hkeep _]]]].
  rewrite E in H. inversion H; subst w2 r; clear H.
  destruct (lookup (fs w) (os_path_join work n)) as [[[|]| |]|] eqn:Ew;
    try (rewrite Hkeep in Hl; [congruence | intros; congruence]).
  rewrite (Hgone n Ew) in Hl. discriminate.
Qed.

Lemma idem_phases (top work : path) (ans : string) :
  idem (tree_phase top ans ;; work_phase work).
Proof.
  apply idem_seq.
  - eapply does_weaken; [|apply does_work_phase_seg]. intros; exact I.
  - apply idem_tree_phase.
  - apply idem_work_phase.
Qed.

(** ** C5: running the script twice *)

(** C5, as stated, fails in its second half: after the first run files
    that the rules match can be left.  At [sample_fs] the run returns
    normally and [../data/work/locked], a regular file directly in the
    work directory, is still there: its removal failed and was only
    reported.  At [locked_log_fs] the run aborts at [log_a], and [log_b],
    which the primary rule selects in a matched directory, is still
    there. *)
Lemma every_match_removed_counterexample :
  (let first := run main_folder work_dir ["n"] sample_fs in
   let p := os_path_join work_dir "locked" in
   snd first = Val tt /\
   is_dir sample_fs work_dir = true /\
   is_file sample_fs p = true /\
   ~ lookup (fs (fst first)) p = None) /\
  (let first := run main_folder work_dir ["n"] locked_log_fs in
   let p := os_path_join (os_path_join main_folder "testcase1") "log_b" in
   matched locked_log_fs main_folder main_folder "testcase1" /\
   is_file locked_log_fs p = true /\
   primary_rule "log_b" = true /\
   ~ lookup (fs (fst first)) p = None).
Proof.
  split.
  - repeat split; try reflexivity. discriminate.
  - split; [exists []; repeat split|].
    repeat split; try reflexivity. discriminate.
Qed.

(** C5, amended.  Whatever the file system and the lines typed, running
    the script again on the file system the first run left, with the same
    lines, removes nothing: the second run leaves the file system as it
    found it and ends the way the first one did.  When the first run
    returned normally, every file the rules match was already removed by
    it, except the files of the work directory that [os.remove] refuses:
    every regular file of a matched directory that the rule in force
    selects is gone, and no removable regular file is left directly in the
    work directory. *)
Theorem second_run_deletes_nothing (top work : path) (lines : list string)
    (f : filesystem) :
  let first := run top work lines f in
  let second := run top work lines (fs (fst first)) in
  removed_paths (trace (fst second)) = [] /\
  fs (fst second) = fs (fst first) /\
  snd second = snd first /\
  (forall ans rest, lines = ans :: rest -> snd first = Val tt ->
     (forall dp dn n,
        matched f top dp dn ->
        is_file f (os_path_join (os_path_join dp dn) n) = true ->
        deletion_rule ans n = true ->
        lookup (fs (fst first)) (os_path_join (os_path_join dp dn) n) = None) /\
     (is_dir f work = true ->
      forall n, lookup (fs (fst first)) (os_path_join work n) <>
                Some (KFile true))).
Proof.
  destruct lines as [|ans rest].
  - rewrite !script_no_answer. cbn [fst snd fs trace removed_paths flat_map app].
    split; [|split; [|split]]; auto.
    intros a l E; discriminate E.
  - cbv zeta.
    destruct (run top work (ans :: rest) f) as [w1 r1] eqn:E1.
    cbn [fst snd].
    assert (Hq : quiet (tree_phase top ans ;; work_phase work)
                   (World (fs w1) rest [ReadLine prompt]) r1).
    { rewrite script_answered in E1. fold prompt in E1.
      pose proof (idem_phases top work ans _ _ _ E1) as S.
      destruct r1 as [[]|e|]; simpl in S.
      - apply S. apply pruned_refl.
      - apply S. reflexivity.
      - destruct S. }
    destruct Hq as [tr [R E2]].
    rewrite script_answered. fold prompt. rewrite E2. cbn [fst snd fs trace].
    split; [|split; [|split]].
    + change ([ReadLine prompt] ++ tr) with (ReadLine prompt :: tr).
      exact R.
    + reflexivity.
    + reflexivity.
    + intros ans' rest' El ->. inversion El; subst ans' rest'. split.
      * intros dp dn n Hm Hf Hr.
        apply (selected_file_gone _ _ _ _ _ _ _ _ _ E1 Hm Hf Hr).
      * intros Hd n. apply run_returned in E1.
        destruct E1 as [w0 [Ht Hw]].
        apply (work_phase_leaves_none work w0 w1 (Val tt)); auto.
        rewrite (pruned_is_dir _ f); auto.
        apply (after_pruned _ _ (tree_phase_after _ _ _ _ _ Ht)).
Qed.

(** ** What the console says about each file *)

Lemma logged_nil (f0 : filesystem) (w : world) : logged f0 w w [].
Proof.
  split; simpl; auto using app_nil_r, pruned_refl, star_nil, NoDup_nil.
  intros q [].
Qed.

Lemma logged_app (f0 : filesystem) (w w1 w2 : world) (tr1 tr2 : list event) :
  logged f0 w w1 tr1 -> logged f0 w1 w2 tr2 -> logged f0 w w2 (tr1 ++ tr2).
Proof.
  intros [T1 P1 S1 N1 G1] [T2 P2 S2 N2 G2]. split.
  - rewrite T2, T1, app_assoc. reflexivity.
  - apply pruned_trans with (fs w1); auto.
  - apply (modular_app _ (star_modular _)); auto.
  - rewrite removed_paths_app.
    assert (Hdisj : forall q, In q (removed_paths tr1) ->
                              ~ In q (removed_paths tr2)).
    { intros q H1 H2. apply G1 in H1. apply G2 in H2.
      destruct H1 as [_ H1], H2 as [H2 _]. congruence. }
    clear - N1 N2 Hdisj.
    induction (removed_paths tr1) as [|x l IH]; simpl; auto.
    inversion N1; subst. constructor.
    + rewrite in_app_iff. intros [H|H]; auto.
      apply (Hdisj x); simpl; auto.
    + apply IH; auto. intros q Hq. apply Hdisj. right; exact Hq.
  - intros q. rewrite removed_paths_app, in_app_iff. intros [H|H].
    + destruct (G1 q H) as [Ha Hb]. split; auto.
      destruct (present (fs w2) q) eqn:E; auto.
      apply (pruned_present _ _ _ P2) in E. congruence.
    + destruct (G2 q H) as [Ha Hb]. split; auto.
      apply (pruned_present _ _ _ P1); exact Ha.
Qed.

Section Logs.
Variable f0 : filesystem.

Lemma logs_silent {A} (m : M A) :
  (forall w, exists r, m w = (w, r)) -> logs f0 m.
Proof.
  intros H w w' r Hp E. destruct (H w) as [r' E']. rewrite E' in E.
  inversion E; subst. exists []. apply logged_nil.
Qed.

Lemma logs_bind {A B} (m : M A) (k : A -> M B) :
  logs f0 m -> (forall a, logs f0 (k a)) -> logs f0 (bind m k).
Proof.
  intros Hm Hk w w' r Hp H. unfold bind in H.
  destruct (m w) as [w1 [a|e|]] eqn:E.
  - destruct (Hm _ _ _ Hp E) as [tr1 L1].
    assert (Hp1 : pruned (fs w1) f0)
      by (apply pruned_trans with (fs w); auto; apply (log_pruned _ _ _ _ L1)).
    destruct (Hk a _ _ _ Hp1 H) as [tr2 L2].
    exists (tr1 ++ tr2). eapply logged_app; eauto.
  - inversion H; subst. eauto.
  - inversion H; subst. eauto.
Qed.

Lemma logs_for_each {A} (xs : list A) (body : A -> M unit) :
  (forall x, In x xs -> logs f0 (body x)) -> logs f0 (for_each xs body).
Proof.
  induction xs as [|x xs IH]; simpl; intros H.
  - apply logs_silent. intros w. exists (Val tt). reflexivity.
  - apply logs_bind; [apply H; auto | intros _; apply IH; auto].
Qed.

Lemma logged_print (w : world) (line : string) :
  report f0 [Printed line] ->
  logged f0 w (World (fs w) (stdin w) (trace w ++ [Printed line]))
         [Printed line].
Proof.
  intros H. split; cbn [fs trace]; auto using pruned_refl, star_one.
  - constructor.
  - intros q [].
Qed.

(** Unlinking a removable regular file, with the line that goes with it
    before ([a]) or after ([b]) the removal. *)
Lemma logged_unlink (w : world) (p : path) (a b : list event) :
  pruned (fs w) f0 ->
  lookup (fs w) p = Some (KFile true) ->
  removed_paths a = [] -> removed_paths b = [] ->
  (lookup f0 p = Some (KFile true) -> report f0 (a ++ Removed p :: b)) ->
  logged f0 w (World (unlink p (fs w)) (stdin w)
                     (trace w ++ a ++ Removed p :: b))
         (a ++ Removed p :: b).
Proof.
  intros Hp El Ha Hb Hr.
  assert (Hrm : removed_paths (a ++ Removed p :: b) = [p]).
  { rewrite removed_paths_app, Ha. simpl. rewrite Hb. reflexivity. }
  split; cbn [fs trace]; auto.
  - apply pruned_unlink. unfold is_dir. rewrite El. reflexivity.
  - apply star_one, Hr.
    destruct (pruned_lookup _ _ Hp p); congruence.
  - rewrite Hrm. repeat constructor. intros [].
  - rewrite Hrm. intros q [<-|[]]. unfold present.
    rewrite El, lookup_unlink_same. auto.
Qed.

Lemma logs_delete_entry (rule : string -> bool) (d : path) (n : string) :
  logs f0 (delete_entry rule d n).
Proof.
  intros w w' r Hp H.
  destruct (delete_entry_cases rule d n w) as [[_ E]|[[_ [El E]]|[_ [El E]]]];
    rewrite E in H; inversion H; subst; clear H.
  - exists []. apply logged_nil.
  - eexists.
    apply (logged_unlink w _ [Printed (deleting_line (os_path_join d n))] []);
      auto.
    intros Hl. apply rep_deleted, Hl.
  - eexists. apply logged_print. apply rep_refused.
    destruct (pruned_lookup _ _ Hp (os_path_join d n)); congruence.
Qed.

Lemma logs_delete_where (rule : string -> bool) (d : path) :
  logs f0 (delete_where rule d).
Proof.
  unfold delete_where. apply logs_bind.
  - apply logs_silent. intros w. unfold os_listdir.
    destruct (lookup (fs w) d) as [[| |]|]; eauto.
  - intros names. apply logs_for_each. intros n _. apply logs_delete_entry.
Qed.

Lemma logs_process_matched (ans : string) (dp : path) (dn : string) :
  is_dir f0 (os_path_join dp dn) = true ->
  logs f0 (process_matched ans dp dn).
Proof.
  intros Hd. unfold process_matched. apply logs_bind.
  - intros w w' r Hp H. inversion H; subst.
    eexists. apply logged_print. apply rep_processing, Hd.
  - intros _. apply logs_bind; [apply logs_delete_where|].
    intros _. destruct (String.eqb ans "y"); [apply logs_delete_where|].
    apply logs_silent. intros w. exists (Val tt). reflexivity.
Qed.

Lemma logs_tree_phase (top : path) (ans : string) :
  logs f0 (tree_phase top ans).
Proof.
  intros w w' r Hp H. rewrite tree_phase_tasks in H. revert H.
  apply logs_for_each; auto.
  intros [dp dn] Hin. apply matched_tasks_in in Hin.
  destruct Hin as [q [_ [_ [Hd _]]]].
  apply logs_process_matched. cbn [fst snd].
  rewrite <- (pruned_is_dir _ _ _ Hp). exact Hd.
Qed.

Lemma logs_work_entry (dir : path) (n : string) : logs f0 (work_entry dir n).
Proof.
  intros w w' r Hp H.
  destruct (work_entry_cases dir n w) as [[_ E]|[[El E]|[El E]]];
    rewrite E in H; inversion H; subst; clear H.
  - exists []. apply logged_nil.
  - eexists.
    apply (logged_unlink w _ [] [Printed (deleted_line (os_path_join dir n))]);
      auto.
    intros Hl. apply rep_removed, Hl.
  - eexists. apply logged_print. apply rep_failed.
    destruct (pruned_lookup _ _ Hp (os_path_join dir n)); congruence.
Qed.

Lemma logs_work_phase (dir : path) : logs f0 (work_phase dir).
Proof.
  unfold work_phase. apply logs_bind.
  - apply logs_silent. intros w. eexists. reflexivity.
  - intros [|].
    + apply logs_bind.
      * apply logs_silent. intros w. unfold os_listdir.
        destruct (lookup (fs w) dir) as [[| |]|]; eauto.
      * intros names. apply logs_for_each. intros n _. apply logs_work_entry.
    + intros w w' r Hp H. inversion H; subst.
      eexists. apply logged_print. apply rep_missing.
Qed.
End Logs.

Lemma run_report (top work : path) (ans : string) (rest : list string)
    (f : filesystem) (w' : world) (r : outcome unit) :
  run top work (ans :: rest) f = (w', r) ->
  exists tr, trace w' = ReadLine prompt :: tr /\ star (report f) tr /\
             NoDup (removed_paths tr).
Proof.
  rewrite script_answered. fold prompt. intros H.
  assert (L : logs f (tree_phase top ans ;; work_phase work)).
  { apply logs_bind; [apply logs_tree_phase|].
    intros _. apply logs_work_phase. }
  destruct (L (World f rest [ReadLine prompt]) _ _ (pruned_refl f) H)
    as [tr [T _ S N _]].
  exists tr. auto.
Qed.

(** ** Lines and the paths they name *)

Lemma str_app_length (a b : string) :
  String.length (a ++ b)%string = String.length a + String.length b.
Proof. induction a as [|c a IH]; simpl; auto. Qed.

Lemma str_app_inv (a a' b b' : string) :
  (a ++ b)%string = (a' ++ b')%string ->
  String.length a = String.length a' -> a = a'.
Proof.
  revert a'; induction a as [|c a IH]; intros [|c' a'] H L;
    simpl in *; try discriminate; auto.
  inversion H; subst. f_equal. apply IH; auto.
Qed.

Lemma deleting_line_inj (p q : path) :
  deleting_line p = deleting_line q -> path_str p = path_str q.
Proof.
  unfold deleting_line.
  generalize (path_str p) (path_str q). intros x y H.
  simpl in H. inversion H. reflexivity.
Qed.

Lemma processing_line_inj (p q : path) :
  processing_line p = processing_line q -> path_str p = path_str q.
Proof.
  unfold processing_line.
  generalize (path_str p) (path_str q). intros x y H.
  simpl in H. inversion H. reflexivity.
Qed.

Lemma deleted_line_inj (p q : path) :
  deleted_line p = deleted_line q -> path_str p = path_str q.
Proof.
  unfold deleted_line.
  generalize (path_str p) (path_str q). intros x y H.
  simpl in H. inversion H as [H']. clear H.
  apply (str_app_inv _ _ _ _ H').
  apply (f_equal String.length) in H'.
  rewrite !str_app_length in H'. simpl in H'. lia.
Qed.

Lemma failed_line_inj (p q : path) :
  failed_line p (PermissionError p) = failed_line q (PermissionError q) ->
  path_str p = path_str q.
Proof.
  unfold failed_line, exn_str.
  generalize (path_str p) (path_str q). intros x y H.
  simpl in H. inversion H as [H']. clear H.
  apply (str_app_inv _ _ _ _ H').
  apply (f_equal String.length) in H'.
  rewrite !str_app_length in H'. simpl in H'.
  rewrite !str_app_length in H'. simpl in H'. lia.
Qed.

Lemma line_kind_deleting (p : path) :
  line_kind (deleting_line p) = (Some "D"%char, Some "i"%char).
Proof. reflexivity. Qed.

Lemma line_kind_deleted (p : path) :
  line_kind (deleted_line p) = (Some "D"%char, Some "e"%char).
Proof. reflexivity. Qed.

Lemma line_kind_processing (p : path) :
  line_kind (processing_line p) = (Some "P"%char, Some "s"%char).
Proof. reflexivity. Qed.

Lemma line_kind_failed (p : path) (e : exn) :
  line_kind (failed_line p e) = (Some "F"%char, Some "d"%char).
Proof. reflexivity. Qed.

Lemma line_kind_missing (d : path) :
  line_kind ("The directory " ++ path_str d ++ " does not exist.")
  = (Some "T"%char, Some "i"%char).
Proof. reflexivity. Qed.

Lemma lookup_in (f : filesystem) (p : path) (k : kind) :
  lookup f p = Some k -> In (p, k) f.
Proof.
  induction f as [|[q k'] f IH]; simpl; [discriminate|].
  destruct (path_eqb q p) eqn:E.
  - apply path_eqb_eq in E. intros H; inversion H; subst. auto.
  - auto.
Qed.

Lemma distinct_texts_spec (f : filesystem) (p q : path) (k k' : kind) :
  distinct_texts f = true ->
  lookup f p = Some k -> lookup f q = Some k' ->
  path_str p = path_str q -> p = q.
Proof.
  unfold distinct_texts. rewrite forallb_forall. intros D Hp Hq E.
  apply lookup_in in Hp. apply lookup_in in Hq.
  specialize (D _ Hp). rewrite forallb_forall in D. specialize (D _ Hq).
  simpl in D. rewrite E, String.eqb_refl in D. simpl in D.
  apply path_eqb_eq; exact D.
Qed.

Lemma mentions_app (p : path) (tr1 tr2 : list event) :
  mentions p (tr1 ++ tr2) = mentions p tr1 + mentions p tr2.
Proof. unfold mentions. rewrite filter_app, length_app. reflexivity. Qed.

Lemma names_file_kind (p : path) (l : string) :
  names_file p (Printed l) = true ->
  (l = deleting_line p \/ l = deleted_line p \/
   l = failed_line p (PermissionError p) \/ l = processing_line p).
Proof.
  simpl. rewrite !orb_true_iff, !String.eqb_eq. tauto.
Qed.

Lemma names_file_deleting (p : path) :
  names_file p (Printed (deleting_line p)) = true.
Proof. unfold names_file. rewrite String.eqb_refl. reflexivity. Qed.

Lemma names_file_deleted (p : path) :
  names_file p (Printed (deleted_line p)) = true.
Proof.
  unfold names_file. rewrite (String.eqb_refl (deleted_line p)).
  rewrite orb_true_r. reflexivity.
Qed.

Lemma report_removed_file (f : filesystem) (tr : list event) (p : path) :
  star (report f) tr -> In (Removed p) tr -> lookup f p = Some (KFile true).
Proof.
  induction 1 as [|s tr Hs Ht IH]; simpl; [tauto|].
  rewrite in_app_iff. intros [Hin|Hin]; auto.
  destruct Hs; simpl in Hin;
    repeat (destruct Hin as [Hin|Hin]; try discriminate; try tauto);
    inversion Hin; subst; assumption.
Qed.

Section Mentions.
Variable f : filesystem.
Hypothesis Hdistinct : distinct_texts f = true.
Variable p : path.
Hypothesis Hp : lookup f p = Some (KFile true).

Lemma same_text_same_path (q : path) (k : kind) :
  lookup f q = Some k -> path_str q = path_str p -> q = p.
Proof. intros Hq E. eapply distinct_texts_spec; eauto. Qed.

(** A segment that does not remove [p] has no line about [p]; the one
    that removes it has exactly one. *)
Lemma segment_mentions (s : list event) :
  report f s ->
  (In (Removed p) s -> mentions p s = 1) /\
  (~ In (Removed p) s -> mentions p s = 0).
Proof.
  intros Hs.
  assert (Hno : forall l,
            (l = deleting_line p -> False) -> (l = deleted_line p -> False) ->
            (l = failed_line p (PermissionError p) -> False) ->
            (l = processing_line p -> False) ->
            names_file p (Printed l) = false).
  { intros l H1 H2 H3 H4.
    destruct (names_file p (Printed l)) eqn:E; auto.
    apply names_file_kind in E. tauto. }
  destruct Hs as [d Hd | q Hq | q Hq | q Hq | q Hq | work].
  - (* Processing directory: d *)
    split; [simpl; intuition discriminate|]. intros _.
    unfold mentions. cbn [filter]. rewrite Hno; auto; intros E.
    + apply (f_equal line_kind) in E. discriminate E.
    + apply (f_equal line_kind) in E. discriminate E.
    + apply (f_equal line_kind) in E. discriminate E.
    + apply processing_line_inj in E.
      unfold is_dir in Hd. destruct (lookup f d) as [k|] eqn:El;
        [|discriminate].
      apply (same_text_same_path _ _ El) in E. subst d.
      rewrite Hp in El. inversion El; subst. discriminate.
  - (* Deleting file: q, refused *)
    split; [simpl; intuition discriminate|]. intros _.
    unfold mentions. cbn [filter]. rewrite Hno; auto; intros E.
    + apply deleting_line_inj, (same_text_same_path _ _ Hq) in E. congruence.
    + apply (f_equal line_kind) in E. discriminate E.
    + apply (f_equal line_kind) in E. discriminate E.
    + apply (f_equal line_kind) in E. discriminate E.
  - (* Deleting file: q, removed *)
    split.
    + simpl. intros [H|[H|[]]]; [discriminate|]. inversion H; subst q.
      unfold mentions. cbn [filter]. rewrite names_file_deleting.
      reflexivity.
    + intros Hn. assert (Hne : q <> p)
        by (intros ->; apply Hn; simpl; auto).
      unfold mentions. cbn [filter]. rewrite Hno; auto; intros E.
      * apply deleting_line_inj, (same_text_same_path _ _ Hq) in E. auto.
      * apply (f_equal line_kind) in E. discriminate E.
      * apply (f_equal line_kind) in E. discriminate E.
      * apply (f_equal line_kind) in E. discriminate E.
  - (* removed, Deleted file: q *)
    split.
    + simpl. intros [H|[H|[]]]; [|discriminate]. inversion H; subst q.
      unfold mentions. cbn [filter].
      rewrite names_file_deleted. reflexivity.
    + intros Hn. assert (Hne : q <> p)
        by (intros ->; apply Hn; simpl; auto).
      unfold mentions. cbn [filter]. rewrite Hno; auto; intros E.
      * apply (f_equal line_kind) in E. discriminate E.
      * apply deleted_line_inj, (same_text_same_path _ _ Hq) in E. auto.
      * apply (f_equal line_kind) in E. discriminate E.
      * apply (f_equal line_kind) in E. discriminate E.
  - (* Failed to delete file q *)
    split; [simpl; intuition discriminate|]. intros _.
    unfold mentions. cbn [filter]. rewrite Hno; auto; intros E.
    + apply (f_equal line_kind) in E. discriminate E.
    + apply (f_equal line_kind) in E. discriminate E.
    + apply failed_line_inj, (same_text_same_path _ _ Hq) in E. congruence.
    + apply (f_equal line_kind) in E. discriminate E.
  - (* The directory ... does not exist. *)
    split; [simpl; intuition discriminate|]. intros _.
    unfold mentions. cbn [filter]. rewrite Hno; auto; intros E;
      apply (f_equal line_kind) in E; discriminate E.
Qed.

Lemma report_mentions (tr : list event) :
  star (report f) tr -> NoDup (removed_paths tr) ->
  (In (Removed p) tr -> mentions p tr = 1) /\
  (~ In (Removed p) tr -> mentions p tr = 0).
Proof.
  induction 1 as [|s tr Hs Ht IH]; intros Hn.
  - split; [intros [] | reflexivity].
  - rewrite removed_paths_app in Hn.
    assert (Hn2 : NoDup (removed_paths tr)).
    { clear - Hn. induction (removed_paths s) as [|x l IHl]; simpl in *; auto.
      inversion Hn; auto. }
    assert (Hdisj : In (Removed p) s -> ~ In (Removed p) tr).
    { rewrite <- !removed_paths_in. clear - Hn.
      induction (removed_paths s) as [|x l IHl]; simpl in *; [tauto|].
      inversion Hn; subst. intros [->|Hin]; auto.
      intros Hin. apply H1. apply in_or_app; auto. }
    destruct (segment_mentions s Hs) as [S1 S0].
    destruct (IH Hn2) as [T1 T0].
    rewrite mentions_app, in_app_iff. split.
    + intros [Hin|Hin].
      * rewrite (S1 Hin), (T0 (Hdisj Hin)). reflexivity.
      * rewrite (T1 Hin), S0; [reflexivity|].
        intros Hin'. apply (Hdisj Hin'). exact Hin.
    + intros Hnot. rewrite S0, T0; auto.
Qed.
End Mentions.

(** Two runs of C5.  On [sample_fs] the first run removes six files and
    returns; on [locked_log_fs] it stops at [log_a], which cannot be
    removed.  In both the second run removes nothing. *)
Lemma second_run_deletes_nothing_witness :
  (let first := run main_folder work_dir ["y"] sample_fs in
   let second := run main_folder work_dir ["y"] (fs (fst first)) in
   List.length (removed_paths (trace (fst first))) = 6 /\
   snd first = Val tt /\
   removed_paths (trace (fst second)) = [] /\
   fs (fst second) = fs (fst first) /\
   snd second = snd first /\
   (forall ans rest, ["y"] = ans :: rest -> snd first = Val tt ->
      (forall dp dn n,
         matched sample_fs main_folder dp dn ->
         is_file sample_fs (os_path_join (os_path_join dp dn) n) = true ->
         deletion_rule ans n = true ->
         lookup (fs (fst first)) (os_path_join (os_path_join dp dn) n)
         = None) /\
      (is_dir sample_fs work_dir = true ->
       forall n, lookup (fs (fst first)) (os_path_join work_dir n) <>
                 Some (KFile true)))) /\
  (snd (run main_folder work_dir ["n"] locked_log_fs) =
     Raised (PermissionError [".."; "data"; "testcase1"; "log_a"]) /\
   removed_paths
     (trace (fst (run main_folder work_dir ["n"]
                    (fs (fst (run main_folder work_dir ["n"]
                                locked_log_fs))))))
   = []).
Proof.
  split.
  - split; [reflexivity|]. split; [reflexivity|].
    apply (second_run_deletes_nothing main_folder work_dir ["y"] sample_fs).
  - split; [reflexivity|].
    apply (second_run_deletes_nothing main_folder work_dir ["n"]
             locked_log_fs).
Defined.

(** The work directory lies below the root, so the tree phase walks it
    like any other directory: a [testcase*] directory inside it is
    cleaned by lines 35-41, not by the work-directory loop. *)
Example work_subdirectory_is_walked :
  removed_paths
    (trace (fst (run main_folder work_dir ["n"]
       [ ([".."; "data"], KDir);
         ([".."; "data"; "work"], KDir);
         ([".."; "data"; "work"; "testcase_x"], KDir);
         ([".."; "data"; "work"; "testcase_x"; "log_1"], KFile true) ])))
  = [[".."; "data"; "work"; "testcase_x"; "log_1"]].
Proof. reflexivity. Qed.

(** ** C9: the console line of each deletion *)

(** C9, as stated, fails in the work-directory phase: there the file is
    removed first and its line is printed afterwards.  In this run no
    console line at all comes before the removal of [../data/work/a.o]. *)
Lemma line_before_removal_counterexample :
  let tr := trace (fst (run main_folder work_dir ["n"] work_only_fs)) in
  let p := [".."; "data"; "work"; "a.o"] in
  tr = [ReadLine prompt; Removed p;
        Printed "Deleted file: '../data/work/a.o'"] /\
  ~ (forall tr1 q tr2, tr = tr1 ++ Removed q :: tr2 ->
       exists l, In (Printed l) tr1 /\ names_file q (Printed l) = true).
Proof.
  split; [reflexivity|].
  intros H.
  destruct (H [ReadLine prompt] [".."; "data"; "work"; "a.o"]
              [Printed "Deleted file: '../data/work/a.o'"] eq_refl)
    as [l [[E|[]] _]].
  discriminate E.
Qed.

(** C9, amended.  For every file a run deletes, exactly one console line
    of the whole run is about that file.  In the tree phase it is the
    [Deleting file:] line, printed just before the removal; in the work
    phase it is the [Deleted file:] line, printed just after it. *)
Theorem removal_has_its_line (top work : path) (ans : string)
    (rest : list string) (f : filesystem) (w' : world) (r : outcome unit) :
  distinct_texts f = true ->
  run top work (ans :: rest) f = (w', r) ->
  forall tr1 p tr2, trace w' = tr1 ++ Removed p :: tr2 ->
    mentions p (trace w') = 1 /\
    ((target ans top p /\
      exists tr0, tr1 = tr0 ++ [Printed (deleting_line p)]) \/
     ((exists n, p = os_path_join work n) /\
      exists tr3, tr2 = Printed (deleted_line p) :: tr3)).
Proof.
  intros Hd H tr1 p tr2 E. split.
  - destruct (run_report _ _ _ _ _ _ _ H) as [tr [T [S N]]].
    assert (Hin : In (Removed p) tr).
    { assert (Hin : In (Removed p) (trace w'))
        by (rewrite E; apply in_or_app; right; left; reflexivity).
      rewrite T in Hin. destruct Hin as [Hin|Hin]; [discriminate | exact Hin]. }
    pose proof (report_removed_file _ _ _ S Hin) as Hp.
    destruct (report_mentions f Hd p Hp tr S N) as [H1 _].
    rewrite T. unfold mentions in *. simpl. apply H1, Hin.
  - destruct (run_trace _ _ _ _ _ _ _ H) as [ta [tb [T [_ [Sa [Sb _]]]]]].
    rewrite T in E.
    destruct tr1 as [|e tr1]; [discriminate E|].
    simpl in E. inversion E as [[He E']]. clear E. subst e.
    apply app_eq_app in E'. destruct E' as [l [[Ea Eb]|[Ea Eb]]].
    + destruct l as [|e l]; simpl in Eb.
      * (* the removal opens the work phase *)
        right. split.
        -- apply (work_removed_child _ _ _ Sb). rewrite <- Eb. left; reflexivity.
        -- apply (work_removed_reported _ _ Sb [] p tr2). rewrite Eb.
           reflexivity.
      * (* the removal is in the tree phase *)
        inversion Eb; subst e tr2. left. split.
        -- apply (tree_removed_target _ _ _ _ Sa). rewrite Ea.
           apply in_or_app; right; left; reflexivity.
        -- destruct (tree_removed_announced _ _ _ Sa _ _ _ Ea) as [tr0 ->].
           exists (ReadLine prompt :: tr0). reflexivity.
    + (* the removal is in the work phase *)
      right. split.
      * apply (work_removed_child _ _ _ Sb). rewrite Eb.
        apply in_or_app; right; left; reflexivity.
      * apply (work_removed_reported _ _ Sb l p tr2). exact Eb.
Qed.

Lemma removal_has_its_line_witness :
  let tr := trace (fst (run main_folder work_dir ["y"] sample_fs)) in
  let p := [".."; "data"; "testcase1"; "run.log"] in
  let tr1 := [ ReadLine prompt;
               Printed "Processing directory: ../data/testcase1";
               Printed "Deleting file: ../data/testcase1/log_run.txt";
               Removed [".."; "data"; "testcase1"; "log_run.txt"];
               Printed "Deleting file: ../data/testcase1/run.log" ] in
  mentions p tr = 1 /\
  ((target "y" main_folder p /\
    exists tr0, tr1 = tr0 ++ [Printed (deleting_line p)]) \/
   ((exists n, p = os_path_join work_dir n) /\
    exists tr3, skipn 6 tr = Printed (deleted_line p) :: tr3)).
Proof.
  apply (removal_has_its_line main_folder work_dir "y" [] sample_fs
           (fst (run main_folder work_dir ["y"] sample_fs))
           (snd (run main_folder work_dir ["y"] sample_fs))).
  - reflexivity.
  - apply surjective_pairing.
  - reflexivity.
Defined.

(** * Further properties of the script *)

(** ** The name tests of lines 13-18 and 25-28 *)

Lemma startswith_spec (pre s : string) :
  startswith pre s = true <-> exists r, s = (pre ++ r)%string.
Proof.
  unfold startswith. revert s.
  induction pre as [|a pre IH]; intros s; simpl.
  - split; [intros _; exists s; reflexivity | destruct s; reflexivity].
  - destruct s as [|b s]; [split; [discriminate | intros [r H]; discriminate H]|].
    cbn [String.prefix append].
    destruct (ascii_dec a b) as [<-|Hne].
    + rewrite IH. split; intros [r H]; exists r; [rewrite H; reflexivity|].
      inversion H; reflexivity.
    + split; [discriminate|]. intros [r H]. inversion H. congruence.
Qed.

Lemma endswith_unfold (suf s : string) :
  endswith suf s =
  String.eqb s suf ||
  match s with EmptyString => false | String _ s' => endswith suf s' end.
Proof. destruct s; reflexivity. Qed.

Lemma endswith_spec (suf s : string) :
  endswith suf s = true <-> exists p, s = (p ++ suf)%string.
Proof.
  split.
  - induction s as [|c s IH]; rewrite endswith_unfold, orb_true_iff.
    + intros [H|H]; [|discriminate]. apply String.eqb_eq in H.
      exists EmptyString. exact H.
    + intros [H|H].
      * apply String.eqb_eq in H. exists EmptyString. exact H.
      * destruct (IH H) as [p ->]. exists (String c p). reflexivity.
  - intros [p ->]. induction p as [|c p IH]; rewrite endswith_unfold.
    + simpl. rewrite String.eqb_refl. reflexivity.
    + cbn [append]. rewrite IH. apply orb_true_r.
Qed.

(** The names the two rules select, by their shape: the primary rule
    selects [log_...], [....log], [output_c...] and [output_test_...]; the
    secondary rule selects [input...] and [output_ref...]. *)
Theorem rules_by_shape (n : string) :
  (primary_rule n = true <->
   (exists r, n = ("log_" ++ r)%string) \/
   (exists p, n = (p ++ ".log")%string) \/
   (exists r, n = ("output_c" ++ r)%string) \/
   (exists r, n = ("output_test_" ++ r)%string)) /\
  (secondary_rule n = true <->
   (exists r, n = ("input" ++ r)%string) \/
   (exists r, n = ("output_ref" ++ r)%string)).
Proof.
  unfold primary_rule, secondary_rule.
  rewrite !orb_true_iff, !startswith_spec, endswith_spec. tauto.
Qed.

(** The two rules overlap on [.log] files only: a name the secondary rule
    selects is selected by the primary rule exactly when it ends with
    [.log].  So, whatever the answer, [input_x.log] is deleted. *)
Theorem rules_overlap_on_log (n : string) :
  secondary_rule n = true -> primary_rule n = endswith ".log" n.
Proof.
  intros H. apply (proj2 (rules_by_shape n)) in H.
  unfold primary_rule, startswith.
  destruct H as [[r ->]|[r ->]].
  - replace (String.prefix "log_" ("input" ++ r)) with false by reflexivity.
    replace (String.prefix "output_c" ("input" ++ r)) with false
      by reflexivity.
    replace (String.prefix "output_test_" ("input" ++ r)) with false
      by reflexivity.
    rewrite !orb_false_r. reflexivity.
  - replace (String.prefix "log_" ("output_ref" ++ r)) with false
      by reflexivity.
    replace (String.prefix "output_c" ("output_ref" ++ r)) with false
      by reflexivity.
    replace (String.prefix "output_test_" ("output_ref" ++ r)) with false
      by reflexivity.
    rewrite !orb_false_r. reflexivity.
Qed.

Lemma rules_overlap_on_log_witness :
  primary_rule "input_x.log" = endswith ".log" "input_x.log".
Proof. apply (rules_overlap_on_log "input_x.log"). reflexivity. Defined.

(** A directory name matches [testcase*] exactly when it starts with
    [testcase]; what follows may be anything, also nothing. *)
Theorem matched_names_by_shape (names : list string) (s : string) :
  (fnmatch "testcase*" s = true <-> exists r, s = ("testcase" ++ r)%string) /\
  fnmatch_filter names "testcase*" = filter (startswith "testcase") names.
Proof.
  split.
  - rewrite fnmatch_testcase. apply startswith_spec.
  - unfold fnmatch_filter. apply filter_ext. intros x. apply fnmatch_testcase.
Qed.

(** ** A work path that is not a directory *)

(** When the work path exists without being a directory, the
    [os.path.exists] test of line 44 lets it through and the [os.listdir]
    of line 46, which is outside any [try], raises [NotADirectoryError]:
    once the tree phase has returned, the run ends with that exception,
    with the file system and the trace the tree phase left, and without
    the not-found line. *)
Theorem work_path_not_a_directory (top work : path) (ans : string)
    (rest : list string) (f : filesystem) (w1 : world) :
  tree_phase top ans (World f rest [ReadLine prompt]) = (w1, Val tt) ->
  present (fs w1) work = true ->
  is_dir (fs w1) work = false ->
  work_phase work w1 = (w1, Raised (NotADirectoryError work)) /\
  run top work (ans :: rest) f = (w1, Raised (NotADirectoryError work)).
Proof.
  intros Ht Hp Hd.
  assert (Hw : work_phase work w1 = (w1, Raised (NotADirectoryError work))).
  { unfold work_phase, bind, os_path_exists, os_listdir.
    rewrite Hp. cbv beta iota.
    unfold present in Hp. unfold is_dir in Hd.
    destruct (lookup (fs w1) work) as [[b| |]|];
      try discriminate; reflexivity. }
  split; [exact Hw|].
  rewrite script_answered. unfold bind. fold prompt. rewrite Ht. exact Hw.
Qed.

Lemma work_path_not_a_directory_witness :
  let w1 := fst (tree_phase main_folder "n"
                   (World work_is_a_file_fs [] [ReadLine prompt])) in
  removed_paths (trace w1) = [[".."; "data"; "testcase1"; "log_a"]] /\
  work_phase work_dir w1 = (w1, Raised (NotADirectoryError work_dir)) /\
  run main_folder work_dir ["n"] work_is_a_file_fs =
    (w1, Raised (NotADirectoryError work_dir)).
Proof.
  split; [reflexivity|].
  apply (work_path_not_a_directory main_folder work_dir "n" []
           work_is_a_file_fs); reflexivity.
Defined.

(** ** What a run does to the file system *)

(** A run only ever unlinks regular files that [os.remove] accepts: every
    path holds afterwards what it held before, or held such a file and is
    gone, its removal being an event of the run; no path is removed twice;
    every directory is still a directory. *)
Theorem run_only_unlinks_files (top work : path) (lines : list string)
    (f : filesystem) (w' : world) (r : outcome unit) :
  run top work lines f = (w', r) ->
  (forall p,
     lookup (fs w') p = lookup f p \/
     (lookup (fs w') p = None /\ lookup f p = Some (KFile true) /\
      In (Removed p) (trace w'))) /\
  NoDup (removed_paths (trace w')) /\
  (forall p, is_dir f p = true -> is_dir (fs w') p = true).
Proof.
  destruct lines as [|ans rest].
  - rewrite script_no_answer. intros H; inversion H; subst; clear H.
    cbn [fs trace]. split; [auto|]. split; [constructor | auto].
  - intros H.
    destruct (run_trace _ _ _ _ _ _ _ H) as [ta [tb [T [_ [_ [_ He]]]]]].
    destruct (run_report _ _ _ _ _ _ _ H) as [tr [T' [S N]]].
    assert (Etr : tr = ta ++ tb) by (rewrite T in T'; inversion T'; auto).
    subst tr. split; [|split].
    + intros p. destruct (effect_lookup _ _ _ p He) as [[Hin Hl]|[_ Hl]].
      * right. split; [exact Hl|]. split.
        -- apply (report_removed_file _ _ _ S Hin).
        -- rewrite T. right. exact Hin.
      * left. exact Hl.
    + rewrite T. exact N.
    + intros p Hd. apply (pruned_dirs _ _ (effect_pruned _ _ _ He)). exact Hd.
Qed.

Lemma run_only_unlinks_files_witness :
  let w' := fst (run main_folder work_dir ["y"] sample_fs) in
  (forall p,
     lookup (fs w') p = lookup sample_fs p \/
     (lookup (fs w') p = None /\ lookup sample_fs p = Some (KFile true) /\
      In (Removed p) (trace w'))) /\
  NoDup (removed_paths (trace w')) /\
  (forall p, is_dir sample_fs p = true -> is_dir (fs w') p = true).
Proof.
  apply (run_only_unlinks_files main_folder work_dir ["y"] sample_fs
           _ (snd (run main_folder work_dir ["y"] sample_fs))).
  apply surjective_pairing.
Defined.

(** ** The two deleting functions on their own *)

Lemma delete_where_removals (rule : string -> bool) (d : path) :
  does (fun tr => forall q, In (Removed q) tr ->
                  exists n, q = os_path_join d n /\ rule n = true)
       (delete_where rule d).
Proof.
  apply does_delete_where.
  - split.
    + intros q [].
    + intros tr1 tr2 H1 H2 q Hin. apply in_app_or in Hin.
      destruct Hin; auto.
  - intros n Hn. split; intros q Hin; simpl in Hin.
    + destruct Hin as [Hin|[]]. discriminate.
    + destruct Hin as [Hin|[Hin|[]]]; [discriminate|].
      inversion Hin; subst. eauto.
Qed.

Lemma delete_where_returns (rule : string -> bool) (d : path)
    (w w' : world) :
  delete_where rule d w = (w', Val tt) ->
  forall p,
    (lookup (fs w') p = None /\
     exists n, p = os_path_join d n /\ rule n = true /\
               lookup (fs w) p = Some (KFile true)) \/
    (lookup (fs w') p = lookup (fs w) p /\
     ~ exists n, p = os_path_join d n /\ rule n = true /\
                 is_file (fs w) p = true).
Proof.
  intros H p.
  destruct (delete_where_removals rule d _ _ _ H) as [tr [He Hphi]].
  destruct (logs_delete_where (fs w) rule d w w' _ (pruned_refl _) H)
    as [tr' L].
  assert (Etr : tr' = tr).
  { pose proof (log_trace _ _ _ _ L) as T1.
    rewrite (eff_trace _ _ _ He) in T1.
    apply app_inv_head in T1. auto. }
  subst tr'.
  destruct (effect_lookup _ _ _ p He) as [[Hin Hl]|[_ Hl]].
  - left. split; [exact Hl|].
    destruct (Hphi p Hin) as [n [-> Hr]]. exists n.
    repeat split; auto.
    apply (report_removed_file _ _ _ (log_report _ _ _ _ L) Hin).
  - right. split; [exact Hl|]. intros [n [-> [Hr Hf]]].
    pose proof (delete_where_clean _ _ _ _ H n Hr) as Hc.
    unfold is_file in *. rewrite Hl in Hc. congruence.
Qed.

(** When [delete_files_in_directory] returns, the regular files directly
    in the directory whose names the primary rule selects are gone and
    every other path, in the directory, below it or elsewhere, holds what
    it held; the same for [delete_matlab_files_in_directory] and the
    secondary rule.  Neither function goes into sub-directories. *)
Theorem delete_functions_contract (d : path) (w w' : world) :
  (delete_files_in_directory d w = (w', Val tt) ->
   forall p,
     (lookup (fs w') p = None /\
      exists n, p = os_path_join d n /\ primary_rule n = true /\
                lookup (fs w) p = Some (KFile true)) \/
     (lookup (fs w') p = lookup (fs w) p /\
      ~ exists n, p = os_path_join d n /\ primary_rule n = true /\
                  is_file (fs w) p = true)) /\
  (delete_matlab_files_in_directory d w = (w', Val tt) ->
   forall p,
     (lookup (fs w') p = None /\
      exists n, p = os_path_join d n /\ secondary_rule n = true /\
                lookup (fs w) p = Some (KFile true)) \/
     (lookup (fs w') p = lookup (fs w) p /\
      ~ exists n, p = os_path_join d n /\ secondary_rule n = true /\
                  is_file (fs w) p = true)).
Proof.
  split; intros H; [apply (delete_where_returns primary_rule d w w' H)|].
  apply (delete_where_returns secondary_rule d w w' H).
Qed.

Lemma sweep_clean (rule : string -> bool) (d : path) (names : list string)
    (w w' : world) :
  for_each names (delete_entry rule d) w = (w', Val tt) ->
  forall n, In n names -> rule n = true ->
            is_file (fs w') (os_path_join d n) = false.
Proof.
  intros H n Hin Hn.
  destruct (for_each_visits _ (does_delete_entry_any rule d) _ _ _ _ H Hin)
    as [w1 [w2 [H1 [Hb H2]]]].
  apply pruned_not_file with (fs w2); [apply after_pruned; exact H2|].
  destruct (delete_entry_cases rule d n w1)
    as [[Hf E]|[[_ [El E]]|[_ [El E]]]];
    rewrite E in Hb; inversion Hb; subst; clear Hb.
  - rewrite Hn, andb_true_r in Hf. exact Hf.
  - unfold is_file; cbn [fs]. rewrite lookup_unlink_same. reflexivity.
Qed.

Lemma sweep_raised_split (rule : string -> bool) (d : path)
    (names : list string) :
  forall w w' e,
    for_each names (delete_entry rule d) w = (w', Raised e) ->
    exists l1 n l2 w1,
      names = l1 ++ n :: l2 /\
      for_each l1 (delete_entry rule d) w = (w1, Val tt) /\
      fs w' = fs w1 /\ rule n = true /\
      lookup (fs w1) (os_path_join d n) = Some (KFile false) /\
      e = PermissionError (os_path_join d n).
Proof.
  induction names as [|n0 names IH]; intros w w' e H; [discriminate H|].
  simpl in H. unfold bind in H.
  destruct (delete_entry_cases rule d n0 w)
    as [[_ E]|[[_ [_ E]]|[Hr [El E]]]]; rewrite E in H.
  - destruct (IH _ _ _ H) as [l1 [n [l2 [w1 [-> [Hl [Hfs Hrest]]]]]]].
    exists (n0 :: l1), n, l2, w1. split; [reflexivity|]. split; auto.
    simpl. unfold bind. rewrite E. exact Hl.
  - destruct (IH _ _ _ H) as [l1 [n [l2 [w1 [-> [Hl [Hfs Hrest]]]]]]].
    exists (n0 :: l1), n, l2, w1. split; [reflexivity|]. split; auto.
    simpl. unfold bind. rewrite E. exact Hl.
  - inversion H; subst w' e; clear H.
    exists [], n0, names, w. repeat split; auto.
Qed.

Lemma nodup_app_disjoint {A} (l1 l2 : list A) (x : A) :
  NoDup (l1 ++ l2) -> In x l1 -> In x l2 -> False.
Proof.
  induction l1 as [|y l1 IH]; simpl; intros Hn H1 H2; [exact H1|].
  inversion Hn; subst. destruct H1 as [->|H1]; auto.
  apply H3. apply in_or_app. auto.
Qed.

Lemma sweep_removals (rule : string -> bool) (d : path) (names : list string) :
  does (fun tr => forall q, In (Removed q) tr ->
                  exists m, In m names /\ q = os_path_join d m)
       (for_each names (delete_entry rule d)).
Proof.
  apply does_for_each.
  - split.
    + intros q [].
    + intros tr1 tr2 H1 H2 q Hin. apply in_app_or in Hin.
      destruct Hin; auto.
  - intros n Hn w w' r H.
    destruct (does_delete_entry_any rule d n _ _ _ H) as [tr [He _]].
    exists tr. split; [exact He|]. intros q Hq.
    exists n. split; [exact Hn|].
    pose proof (eff_trace _ _ _ He) as T.
    destruct (delete_entry_cases rule d n w)
      as [[_ E]|[[_ [_ E]]|[_ [_ E]]]];
      rewrite E in H; inversion H; subst w'; clear H; cbn [trace] in T.
    + rewrite <- (app_nil_r (trace w)) in T at 1.
      apply app_inv_head in T. subst tr. destruct Hq.
    + apply app_inv_head in T. subst tr.
      destruct Hq as [Hq|[Hq|[]]]; [discriminate|]. inversion Hq; auto.
    + apply app_inv_head in T. subst tr.
      destruct Hq as [Hq|[]]. discriminate.
Qed.

(** Where a deleting function stops, [delete_files_in_directory] being
    [delete_where primary_rule] and [delete_matlab_files_in_directory]
    being [delete_where secondary_rule].  When the function raises the
    exception of [os.remove] refusing the file [n] of the directory, [n]
    is a regular file the rule selects and it is still there; in listing
    order, the selected files before it are gone and the entries after it
    are as they were. *)
Theorem delete_stops_at_first_refusal (rule : string -> bool) (d : path)
    (n : string) (w w' : world) :
  delete_where rule d w = (w', Raised (PermissionError (os_path_join d n))) ->
  rule n = true /\
  lookup (fs w) (os_path_join d n) = Some (KFile false) /\
  lookup (fs w') (os_path_join d n) = Some (KFile false) /\
  exists l1 l2,
    names_in (fs w) d = l1 ++ n :: l2 /\
    (forall m, In m l1 -> rule m = true ->
               is_file (fs w') (os_path_join d m) = false) /\
    (forall m, In m l2 ->
               lookup (fs w') (os_path_join d m) =
               lookup (fs w) (os_path_join d m)).
Proof.
  intros H. unfold delete_where, bind, os_listdir in H.
  destruct (lookup (fs w) d) as [[b| |]|] eqn:El; try discriminate H.
  destruct (sweep_raised_split _ _ _ _ _ _ H)
    as [l1 [n' [l2 [w1 [En [Hl [Hfs [Hr [Hk E]]]]]]]]].
  inversion E as [E']. apply join_inj in E'. destruct E' as [_ <-]. clear E.
  destruct (sweep_removals rule d l1 _ _ _ Hl) as [tr [He Hphi]].
  pose proof (names_in_nodup (fs w) d) as Hnd. rewrite En in Hnd.
  split; [exact Hr|]. split; [|split].
  - destruct (pruned_lookup _ _ (effect_pruned _ _ _ He) (os_path_join d n));
      congruence.
  - rewrite Hfs. exact Hk.
  - exists l1, l2. split; [exact En|]. split.
    + intros m Hm Hrm. rewrite Hfs. eapply sweep_clean; eauto.
    + intros m Hm. rewrite Hfs.
      destruct (effect_lookup _ _ _ (os_path_join d m) He)
        as [[Hin _]|[_ Hlk]]; [|exact Hlk].
      exfalso. destruct (Hphi _ Hin) as [m' [Hm' E]].
      apply join_inj in E. destruct E as [_ <-].
      apply NoDup_remove_1 in Hnd.
      apply (nodup_app_disjoint _ _ _ Hnd Hm' Hm).
Qed.

(** A directory where the refused file sits between two selected ones. *)
Lemma delete_stops_at_first_refusal_witness :
  let d := os_path_join main_folder "testcase1" in
  let w := World [ (main_folder, KDir); (d, KDir);
                   (os_path_join d "log_0", KFile true);
                   (os_path_join d "log_a", KFile false);
                   (os_path_join d "log_b", KFile true) ] [] [] in
  let w' := fst (delete_files_in_directory d w) in
  primary_rule "log_a" = true /\
  lookup (fs w) (os_path_join d "log_a") = Some (KFile false) /\
  lookup (fs w') (os_path_join d "log_a") = Some (KFile false) /\
  exists l1 l2,
    names_in (fs w) d = l1 ++ "log_a" :: l2 /\
    (forall m, In m l1 -> primary_rule m = true ->
               is_file (fs w') (os_path_join d m) = false) /\
    (forall m, In m l2 ->
               lookup (fs w') (os_path_join d m) =
               lookup (fs w) (os_path_join d m)).
Proof.
  apply (delete_stops_at_first_refusal primary_rule
           (os_path_join main_folder "testcase1") "log_a").
  reflexivity.
Defined.

(** ** The walk *)

(** The fuel of the walk is only a device: with any amount of fuel that
    is at least the depth bound of the file system the walk does what
    [os_walk] does, and [os_walk] never runs out of it.  So the walk of
    lines 35-41 terminates on every file system. *)
Theorem walk_fuel_is_enough (top : path) (ans : string) (w : world)
    (fuel : nat) :
  depth_bound (fs w) <= fuel ->
  os_walk_fuel fuel top (walk_body ans) w = os_walk top (walk_body ans) w /\
  forall w', os_walk top (walk_body ans) w <> (w', OutOfFuel).
Proof.
  intros Hf. split.
  - change (os_walk top (walk_body ans) w) with (tree_phase top ans w).
    rewrite tree_phase_tasks. unfold matched_tasks.
    destruct fuel as [|n]; [unfold depth_bound in Hf; lia|].
    rewrite walk_refine.
    + rewrite (walk_tasks_fuel (fs w) (S n) (depth_bound (fs w)) top);
        auto; intros p Hp; apply depth_bound_is_dir in Hp; lia.
    + intros p Hp. apply depth_bound_is_dir in Hp. lia.
  - intros w'. apply (tree_phase_fuel top ans w w').
Qed.

Lemma walk_fuel_is_enough_witness :
  os_walk_fuel 100 main_folder (walk_body "y") (World sample_fs [] []) =
  os_walk main_folder (walk_body "y") (World sample_fs [] []) /\
  forall w', os_walk main_folder (walk_body "y") (World sample_fs [] [])
             <> (w', OutOfFuel).
Proof.
  apply (walk_fuel_is_enough main_folder "y" (World sample_fs [] []) 100).
  vm_compute. repeat constructor.
Defined.

Lemma subdirs_nodup (f : filesystem) (d : path) : NoDup (subdirs f d).
Proof. apply NoDup_filter, names_in_nodup. Qed.

Lemma nodup_flat_map {A B} (g : A -> list B) (l : list A) :
  NoDup l ->
  (forall x, In x l -> NoDup (g x)) ->
  (forall x y z, In x l -> In y l -> In z (g x) -> In z (g y) -> x = y) ->
  NoDup (flat_map g l).
Proof.
  induction 1 as [|x l Hx Hl IH]; intros Hg Hd; simpl; [constructor|].
  apply NoDup_app.
  - apply Hg. left; reflexivity.
  - apply IH.
    + intros y Hy. apply Hg. right; exact Hy.
    + intros a b z Ha Hb. apply Hd; right; assumption.
  - intros z Hz Hz'. apply in_flat_map in Hz'. destruct Hz' as [y [Hy Hzy]].
    assert (x = y) by (apply (Hd x y z); simpl; auto).
    subst y. contradiction.
Qed.

(** No matched directory comes twice in the walk. *)
Lemma walk_tasks_nodup (fuel : nat) (f : filesystem) :
  forall top, NoDup (walk_tasks fuel f top).
Proof.
  induction fuel as [|fuel IH]; intros top; [constructor|].
  rewrite walk_tasks_S. destruct (is_dir f top); [|constructor].
  apply NoDup_app.
  - apply NoDup_map_NoDup_ForallPairs.
    + intros x y _ _ E. inversion E; reflexivity.
    + apply NoDup_filter, subdirs_nodup.
  - apply nodup_flat_map; [apply subdirs_nodup | intros; apply IH |].
    intros x y [dp dn] _ _ Hx Hy.
    apply walk_tasks_sound in Hx. apply walk_tasks_sound in Hy.
    destruct Hx as [q [Ex _]], Hy as [q' [Ey _]].
    rewrite Ex in Ey. unfold os_path_join in Ey.
    rewrite <- !app_assoc in Ey. apply app_inv_head in Ey.
    inversion Ey; reflexivity.
  - intros [dp dn] Ha Hb.
    apply in_map_iff in Ha. destruct Ha as [x [Ex _]].
    inversion Ex; subst dp dn; clear Ex.
    apply in_flat_map in Hb. destruct Hb as [y [_ Hy]].
    apply walk_tasks_sound in Hy. destruct Hy as [q [Ey _]].
    apply (f_equal (@List.length string)) in Ey.
    unfold os_path_join in Ey. rewrite !length_app in Ey. simpl in Ey. lia.
Qed.

Lemma processing_lines_app (tr1 tr2 : list event) :
  processing_lines (tr1 ++ tr2) = processing_lines tr1 ++ processing_lines tr2.
Proof. unfold processing_lines. apply flat_map_app. Qed.

Lemma processing_lines_own (d : path) :
  processing_lines [Printed (processing_line d)] = [processing_line d].
Proof.
  unfold processing_lines. cbn [flat_map].
  assert (H : startswith "Processing directory: " (processing_line d) = true)
    by (apply startswith_spec; exists (path_str d); reflexivity).
  rewrite H. reflexivity.
Qed.

Lemma does_delete_where_no_processing (rule : string -> bool) (d : path) :
  does (fun tr => processing_lines tr = []) (delete_where rule d).
Proof.
  apply does_delete_where.
  - split; [reflexivity|].
    intros tr1 tr2 H1 H2. rewrite processing_lines_app, H1, H2. reflexivity.
  - intros n _. split; reflexivity.
Qed.

Lemma process_matched_lines (ans : string) (dp : path) (dn : string)
    (w w' : world) (r : outcome unit) :
  process_matched ans dp dn w = (w', r) ->
  exists tr, trace w' = trace w ++ tr /\
             processing_lines tr = [processing_line (os_path_join dp dn)].
Proof.
  rewrite process_matched_unfold. intros H.
  assert (D : does (fun tr => processing_lines tr = [])
                (delete_where primary_rule (os_path_join dp dn) ;;
                 if String.eqb ans "y"
                 then delete_where secondary_rule (os_path_join dp dn)
                 else ret tt)).
  { assert (M : modular (fun tr => processing_lines tr = [])).
    { split; [reflexivity|].
      intros tr1 tr2 H1 H2. rewrite processing_lines_app, H1, H2.
      reflexivity. }
    apply does_bind; auto using does_delete_where_no_processing.
    intros _. apply does_if; auto using does_delete_where_no_processing.
    apply does_ret; auto. }
  destruct (D _ _ _ H) as [tr [He Hn]].
  exists (Printed (processing_line (os_path_join dp dn)) :: tr). split.
  - rewrite (eff_trace _ _ _ He). cbn [trace].
    rewrite <- app_assoc. reflexivity.
  - change (Printed (processing_line (os_path_join dp dn)) :: tr)
      with ([Printed (processing_line (os_path_join dp dn))] ++ tr).
    rewrite processing_lines_app, processing_lines_own, Hn. reflexivity.
Qed.

Lemma tasks_lines (ans : string) (tasks : list (path * string)) :
  forall w w' r,
    for_each tasks (proc ans) w = (w', r) ->
    exists done rest tr,
      tasks = done ++ rest /\ trace w' = trace w ++ tr /\
      processing_lines tr = map task_line done /\
      (r = Val tt -> rest = []).
Proof.
  induction tasks as [|t tasks IH]; intros w w' r H.
  - inversion H; subst. exists [], [], [].
    repeat split; auto using app_nil_r.
  - simpl in H. unfold bind in H.
    destruct (proc ans t w) as [w1 r1] eqn:E.
    destruct (process_matched_lines _ _ _ _ _ _ E) as [tr1 [T1 L1]].
    destruct r1 as [[]|e|].
    + destruct (IH _ _ _ H) as [done [rest [tr [-> [T [L R]]]]]].
      exists (t :: done), rest, (tr1 ++ tr). split; [reflexivity|].
      split; [rewrite T, T1, app_assoc; reflexivity|]. split; auto.
      rewrite processing_lines_app, L1, L. reflexivity.
    + inversion H; subst. exists [t], tasks, tr1.
      repeat split; auto. discriminate.
    + inversion H; subst. exists [t], tasks, tr1.
      repeat split; auto. discriminate.
Qed.

(** One [Processing directory:] line is printed per matched directory
    entered, in the order of the walk: top-down, the matched
    sub-directories of a directory in listing order before anything
    deeper.  No matched directory comes twice in that order.  When the
    tree phase returns the lines are those of all matched directories; when
    it raises, those of the ones reached. *)
Theorem processing_lines_follow_the_walk (top : path) (ans : string)
    (lines : list string) (f : filesystem) (w' : world) (r : outcome unit) :
  tree_phase top ans (World f lines []) = (w', r) ->
  NoDup (matched_tasks f top) /\
  exists done rest,
    matched_tasks f top = done ++ rest /\
    processing_lines (trace w') = map task_line done /\
    (r = Val tt -> rest = []).
Proof.
  intros H. split; [apply walk_tasks_nodup|].
  rewrite tree_phase_tasks in H. cbn [fs] in H.
  destruct (tasks_lines _ _ _ _ _ H) as [done [rest [tr [E [T [L R]]]]]].
  exists done, rest. cbn [trace app] in T. rewrite T. auto.
Qed.

Lemma processing_lines_follow_the_walk_witness :
  let w' := fst (tree_phase main_folder "n" (World sample_fs [] [])) in
  processing_lines (trace w') =
    [ "Processing directory: ../data/testcase1";
      "Processing directory: ../data/other/testcase9" ] /\
  NoDup (matched_tasks sample_fs main_folder) /\
  exists done rest,
    matched_tasks sample_fs main_folder = done ++ rest /\
    processing_lines (trace w') = map task_line done /\
    (snd (tree_phase main_folder "n" (World sample_fs [] [])) = Val tt ->
     rest = []).
Proof.
  split; [reflexivity|].
  apply (processing_lines_follow_the_walk main_folder "n" [] sample_fs).
  apply surjective_pairing.
Defined.
